(** * Motion Canvas: frame export, text wrapping and layout size locks

    A shallow embedding of
    - [packages/core/src/app/ImageExporter.ts] (module [ImageExporter]),
    - the [TxtLeaf] component (module [TxtLeaf]),
    - the [Layout] component and the [View2D] root (modules [Layout] and
      [Binary64]),
    followed by the properties established about them.

    Counters and frame numbers are embedded as [Z] or [nat].  Lengths and
    coordinates are embedded as [Q] where a property rests on the
    comparisons and assignments of the code, and as binary64 (module
    [Binary64]) where it rests on the arithmetic itself.  Asynchronous code
    is embedded by explicit state passing over a schedule that lists what
    the event loop delivers while the code is suspended; methods declared
    [@computed()] that make calls are embedded over a store of cells. *)

From Stdlib Require Import ZArith QArith List String Bool Lia Lqa.
From Corelib Require Import PrimFloat.
From stdpp Require Import base gmap sets list strings.
Import ListNotations.

Local Open Scope Z_scope.

(* ===================================================================== *)
(** * ImageExporter *)
(* ===================================================================== *)

Module ImageExporter.

Definition EXPORT_FRAME_LIMIT : nat := 256.
Definition EXPORT_RETRY_DELAY : Z := 1000.

(** [RendererResult] is declared in [Renderer.ts]; the exporter only
    distinguishes [Success] from everything else. *)
Inductive RendererResult := Success | Error | Aborted.

Definition isSuccess (r : RendererResult) : bool :=
  match r with Success => true | _ => false end.

Definition Blob := string.

(** The payload of a ['motion-canvas:export'] message. *)
Record ExportMessage := {
  msg_frame : Z;
  msg_isStill : bool;
  msg_data : string;
  msg_mimeType : string;
  msg_project : string
}.

(** What can be thrown inside the export task: [reject()] on a [null] blob
    and the reader's [onerror]. *)
Inductive ExportFailure := BlobIsNull | ReaderFailed.

(** Calls that leave the exporter, in the order they are made. *)
Inductive Effect :=
| Warn (frame : Z)      (* logger.warn(`Frame no. ${frame} is already being exported.`) *)
| LogError (e : ExportFailure)                       (* logger.error(e) *)
| Timeout (ms : Z)                                   (* setTimeout(resolve, ms) *)
| ToBlob (frame : Z) (fileType : string) (quality : Q) (* canvas.toBlob(..) *)
| ReadAsDataURL (frame : Z) (blob : Blob)            (* reader.readAsDataURL(blob) *)
| Send (m : ExportMessage)                           (* import.meta.hot.send(..) *)
| ConsoleLog (result : RendererResult).              (* console.log(result) *)

Record Exporter := {
  frameLookup : gset Z;
  name : string;
  quality : Q;
  fileType : string;
  hot : bool;              (* whether import.meta.hot is defined *)
  effects : list Effect    (* most recent last *)
}.

Definition withLookup (s : gset Z) (st : Exporter) : Exporter :=
  {| frameLookup := s; name := name st; quality := quality st;
     fileType := fileType st; hot := hot st; effects := effects st |}.

Definition emit (e : Effect) (st : Exporter) : Exporter :=
  {| frameLookup := frameLookup st; name := name st; quality := quality st;
     fileType := fileType st; hot := hot st; effects := effects st ++ [e] |}.

(** The constructor: an empty lookup and default settings. *)
Definition create (isHot : bool) : Exporter :=
  {| frameLookup := ∅; name := "unknown"; quality := 1;
     fileType := "image/png"; hot := isHot; effects := [] |}.

(** The ['motion-canvas:export-ack'] handler installed by the constructor;
    it is only installed when [import.meta.hot] is defined. *)
Definition onAck (frame : Z) (st : Exporter) : Exporter :=
  if hot st then withLookup (frameLookup st ∖ {[frame]}) st else st.

Definition onAcks (frames : list Z) (st : Exporter) : Exporter :=
  fold_left (fun s f => onAck f s) frames st.

Record RendererSettings := {
  settings_name : string;
  settings_quality : Q;
  settings_fileType : string
}.

Definition configure (settings : RendererSettings) (st : Exporter) : Exporter :=
  {| frameLookup := frameLookup st; name := settings_name settings;
     quality := settings_quality settings;
     fileType := settings_fileType settings;
     hot := hot st; effects := effects st |}.

Definition start (st : Exporter) : Exporter := withLookup ∅ st.

(** An [AbortSignal] as seen by one call: [signal i] is the value of
    [signal.aborted] once [i] asynchronous hand-offs of that call have
    completed ([signal 0] is its value on entry). *)
Definition AbortSignal := nat -> bool.

(** While a call sleeps for [EXPORT_RETRY_DELAY] the event loop delivers
    acknowledgments; a schedule lists the frames acknowledged during each
    successive sleep. *)
Definition Schedule := list (list Z).

Definition sleep (acks : list Z) (st : Exporter) : Exporter :=
  onAcks acks (emit (Timeout EXPORT_RETRY_DELAY) st).

Inductive WaitOutcome :=
| Room (handoffs : nat)     (* the loop condition became false *)
| Cancelled (handoffs : nat)(* [signal.aborted] after a sleep *)
| Sleeping.                 (* the schedule ended inside the loop *)

(** The [while (this.frameLookup.size > EXPORT_FRAME_LIMIT)] loop. *)
Fixpoint awaitRoom (signal : AbortSignal) (i : nat) (sched : Schedule)
    (st : Exporter) : WaitOutcome * Exporter :=
  if (EXPORT_FRAME_LIMIT <? size (frameLookup st))%nat then
    match sched with
    | [] => (Sleeping, st)
    | acks :: sched' =>
        let st' := sleep acks st in
        if signal (S i) then (Cancelled (S i), st')
        else awaitRoom signal (S i) sched' st'
    end
  else (Room i, st).

Inductive FrameOutcome :=
| Rejected               (* duplicate frame: warned and returned *)
| Inactive               (* no import.meta.hot: nothing to do *)
| Aborting (handoffs : nat) (* returned from inside the wait loop *)
| Accepted (handoffs : nat) (* frame added, export task started *)
| Blocked.               (* still inside the wait loop *)

(** [handleFrame] up to the point where the method returns: the export
    task has been started, that is, [canvas.toBlob] has been called. *)
Definition handleFrame (frame : Z) (signal : AbortSignal) (sched : Schedule)
    (st : Exporter) : FrameOutcome * Exporter :=
  if decide (frame ∈ frameLookup st) then
    (Rejected, emit (Warn frame) st)
  else if hot st then
    match awaitRoom signal 0 sched st with
    | (Sleeping, st') => (Blocked, st')
    | (Cancelled i, st') => (Aborting i, st')
    | (Room i, st') =>
        let st'' := withLookup ({[frame]} ∪ frameLookup st') st' in
        (Accepted i, emit (ToBlob frame (fileType st'') (quality st'')) st'')
    end
  else (Inactive, st).

(** The [.catch] handler of the export task. *)
Definition exportFailed (frame : Z) (e : ExportFailure) (st : Exporter)
    : Exporter :=
  emit (LogError e) (withLookup (frameLookup st ∖ {[frame]}) st).

(** The rest of the export task, resumed when [toBlob] calls back with
    [blob] ([None] is the [null] blob).  [i] is the number of hand-offs
    completed before the task started; [reader] is
    [FileReader.readAsDataURL], [None] standing for [onerror]. *)
Definition exportTask (blob : option Blob) (reader : Blob -> option string)
    (frame : Z) (signal : AbortSignal) (i : nat) (st : Exporter) : Exporter :=
  match blob with
  | None => exportFailed frame BlobIsNull st
  | Some blob =>
      if signal (S i) then st
      else
        let st1 := emit (ReadAsDataURL frame blob) st in
        match reader blob with
        | None => exportFailed frame ReaderFailed st1
        | Some data =>
            if signal (S (S i)) then st1
            else emit (Send {| msg_frame := frame; msg_isStill := false;
                               msg_data := data;
                               msg_mimeType := fileType st1;
                               msg_project := name st1 |}) st1
        end
  end.

Inductive StopOutcome :=
| Returned (polls : nat)
| Draining.               (* still inside the wait loop *)

(** The [while (this.frameLookup.size > 0)] loop of [stop]. *)
Fixpoint drain (polls : nat) (sched : Schedule) (st : Exporter)
    : StopOutcome * Exporter :=
  if (0 <? size (frameLookup st))%nat then
    match sched with
    | [] => (Draining, st)
    | acks :: sched' => drain (S polls) sched' (sleep acks st)
    end
  else (Returned polls, st).

Definition stop (result : RendererResult) (sched : Schedule) (st : Exporter)
    : StopOutcome * Exporter :=
  let st0 := emit (ConsoleLog result) st in
  if isSuccess result then
    match drain 0 sched st0 with
    | (Returned k, st') => (Returned k, withLookup ∅ st')
    | (Draining, st') => (Draining, st')
    end
  else (Returned 0, withLookup ∅ st0).

(** The in-flight set after the first [k] sleeps of a schedule. *)
Definition afterSleeps (k : nat) (sched : Schedule) (st : Exporter) : Exporter :=
  fold_left (fun s acks => sleep acks s) (take k sched) st.

(** Frames [0 .. n-1] in flight. *)
Definition inFlight (n : nat) (isHot : bool) : Exporter :=
  withLookup (list_to_set (seqZ 0 (Z.of_nat n))) (create isHot).

(** The number of frames in flight after [k] sleeps. *)
Definition inflight (k : nat) (sched : Schedule) (st : Exporter) : nat :=
  size (frameLookup (afterSleeps k sched st)).

(** The wait loop went through its first [k] rounds: before each of them
    the limit was exceeded, and after each of them the signal was clear. *)
Definition waited (signal : AbortSignal) (i k : nat)
    (sched : Schedule) (st : Exporter) : Prop :=
  forall j, (j < k)%nat ->
    (EXPORT_FRAME_LIMIT < inflight j sched st)%nat /\ signal (S (i + j)) = false.

(** The wait loop of [stop] went through its first [k] rounds: frames
    were still in flight before each of them. *)
Definition polled (k : nat) (sched : Schedule) (st : Exporter) : Prop :=
  forall j, (j < k)%nat -> (0 < inflight j sched st)%nat.

(** ** A session of the exporter *)

(** What happens to an exporter, one event at a time: the calls of the
    renderer, the resumption of an export task, and an acknowledgment
    from the server. *)
Inductive Event :=
| Configure (settings : RendererSettings)
| Start
| HandleFrame (frame : Z) (signal : AbortSignal) (sched : Schedule)
| Export (blob : option Blob) (reader : Blob -> option string) (frame : Z)
    (signal : AbortSignal) (i : nat)
| Ack (frame : Z)
| Stop (result : RendererResult) (sched : Schedule).

Definition happen (ev : Event) (st : Exporter) : Exporter :=
  match ev with
  | Configure settings => configure settings st
  | Start => start st
  | HandleFrame frame signal sched => snd (handleFrame frame signal sched st)
  | Export blob reader frame signal i => exportTask blob reader frame signal i st
  | Ack frame => onAck frame st
  | Stop result sched => snd (stop result sched st)
  end.

(** The exporter after a list of events, starting from the constructor. *)
Definition session (isHot : bool) (events : list Event) : Exporter :=
  fold_left (fun st ev => happen ev st) events (create isHot).

End ImageExporter.

(* ===================================================================== *)
(** * Geometry: the parts of [Vector2] and [BBox] used below *)
(* ===================================================================== *)

Module Vector2.

Record t := make { x : Q; y : Q }.

Definition zero : t := make 0 0.
Definition add (a b : t) : t := make (x a + x b) (y a + y b).
Definition sub (a b : t) : t := make (x a - x b) (y a - y b).
Definition mul (a b : t) : t := make (x a * x b) (y a * y b).
Definition scale (a : t) (k : Q) : t := make (x a * k) (y a * k).
Definition flipped (a : t) : t := make (- x a) (- y a).

(** [exactlyEquals]: both components are the same number. *)
Definition exactlyEquals (a b : t) : bool :=
  Qeq_bool (x a) (x b) && Qeq_bool (y a) (y b).

(** Equality of the numbers denoted by the components. *)
Definition eq (a b : t) : Prop := (x a == x b)%Q /\ (y a == y b)%Q.

End Vector2.

Module BBox.

Record t := make { x : Q; y : Q; width : Q; height : Q }.

Definition empty : t := make 0 0 0 0.
Definition size (b : t) : Vector2.t := Vector2.make (width b) (height b).

End BBox.

(* ===================================================================== *)
(** * TxtLeaf *)
(* ===================================================================== *)

Module TxtLeaf.

(** An entry of [textNodes]; of the [TextMetrics] only [width] is read. *)
Record TextNode := { content : string; measure_width : Q }.

Definition isSpace (s : string) : bool := String.eqb s " ".

(** [a > b] on numbers. *)
Definition gt (a b : Q) : bool := negb (Qle_bool a b).

(** ** [desiredLines], the closure defined in [updateLayout] *)

Record Wrap := { wx : Q; wwidth : Q; lines : Z }.

Definition wrapStep (maxWidth : Q) (s : Wrap) (textNode : TextNode) : Wrap :=
  let s1 :=
    if gt (wx s + wwidth s + measure_width textNode) maxWidth
    then {| wx := 0; wwidth := wwidth s; lines := lines s + 1 |}
    else s in
  let s2 := {| wx := wx s1;
               wwidth := wwidth s1 + measure_width textNode;
               lines := lines s1 |} in
  if isSpace (content textNode)
  then {| wx := wx s2 + wwidth s2; wwidth := 0; lines := lines s2 |}
  else s2.

Definition desiredLines (textNodes : list TextNode) (maxWidth : Q) : Z :=
  lines (fold_left (wrapStep maxWidth) textNodes
                   {| wx := 0; wwidth := 0; lines := 1 |}).

(** ** The measure function handed to Yoga *)

Inductive MeasureMode := Undefined | Exactly | AtMost.

Definition totalWidth (textNodes : list TextNode) : Q :=
  fold_left (fun w n => w + measure_width n)%Q textNodes 0%Q.

Definition Qmin (a b : Q) : Q := if Qle_bool a b then a else b.

Definition measureFunc (textNodes : list TextNode) (lineHeight : Q)
    (availableWidth : Q) (widthMode : MeasureMode)
    (availableHeight : Q) (heightMode : MeasureMode) : Q * Q :=
  let '(width, checkHeight) :=
    match widthMode with
    | Undefined => (totalWidth textNodes, false)
    | Exactly => (availableWidth, true)
    | AtMost =>
        let desiredWidth := totalWidth textNodes in
        if Qle_bool desiredWidth availableWidth
        then (desiredWidth, false)
        else (availableWidth, true)
    end in
  let lines :=
    if checkHeight then desiredLines textNodes width else 1 in
  let height :=
    match heightMode with
    | Undefined => (lineHeight * inject_Z lines)%Q
    | Exactly => availableHeight
    | AtMost => Qmin availableHeight (lineHeight * inject_Z lines)%Q
    end in
  (width, height).

(** ** [draw] *)

(** The calls [draw] makes on the canvas context. *)
Inductive CanvasCall :=
| Translate (dx dy : Q)
| DrawText (text : string) (box : BBox.t).

Record Pen := {
  lineRect : BBox.t;
  pending : string;             (* the local [content] *)
  calls : list CanvasCall       (* most recent last *)
}.

Definition drawStep (width lineHeight : Q) (s : Pen) (textNode : TextNode)
    : Pen :=
  let r := lineRect s in
  let r1 :=
    if gt (BBox.x r + BBox.width r + measure_width textNode) width
    then BBox.make 0 (BBox.y r + lineHeight) (BBox.width r) (BBox.height r)
    else r in
  let r2 := BBox.make (BBox.x r1) (BBox.y r1)
                      (BBox.width r1 + measure_width textNode)
                      (BBox.height r1) in
  if isSpace (content textNode)
  then {| lineRect := BBox.make (BBox.x r2 + BBox.width r2) (BBox.y r2) 0
                                (BBox.height r2);
          pending := EmptyString;
          calls := calls s ++ [DrawText (pending s) r2] |}
  else {| lineRect := r2;
          pending := pending s ++ content textNode;
          calls := calls s |}.

(** [draw], from the translation on: the loop and the final flush.
    [width] and [height] are the components of [this.size()],
    [lineHeight] is [this.resolveLineHeight()].  The font and style
    calls that come first do not touch the loop and are left out. *)
Definition draw (textNodes : list TextNode) (width height lineHeight : Q)
    : Pen :=
  let start := {| lineRect := BBox.make 0 0 0 lineHeight;
                  pending := EmptyString;
                  calls := [Translate (- width / 2) (- height / 2)] |} in
  let s := fold_left (drawStep width lineHeight) textNodes start in
  if negb (String.eqb (pending s) EmptyString)
  then {| lineRect := lineRect s; pending := pending s;
          calls := calls s ++ [DrawText (pending s) (lineRect s)] |}
  else s.

(** The vertical offset of the last line drawn, counted in lines: [draw]
    starts on line 1 and moves [lineRect.y] down by one [lineHeight] per
    break. *)
Definition drawnLines (textNodes : list TextNode) (width height lineHeight : Q)
    : Q :=
  (1 + BBox.y (lineRect (draw textNodes width height lineHeight)) / lineHeight)%Q.

(** What relates the pen of [draw] to the counters of [desiredLines]:
    the same horizontal position and pending width, and a vertical offset
    of one line height per line already left behind. *)
Definition inStep (lineHeight : Q) (s : Pen) (w : Wrap) : Prop :=
  BBox.x (lineRect s) = wx w
  /\ BBox.width (lineRect s) = wwidth w
  /\ (BBox.y (lineRect s) == inject_Z (lines w - 1) * lineHeight)%Q.

(** A short text: two-letter words separated by spaces. *)
Definition sampleText : list TextNode :=
  [ {| content := "a"; measure_width := 10 |};
    {| content := "b"; measure_width := 10 |};
    {| content := " "; measure_width := 5 |};
    {| content := "c"; measure_width := 10 |};
    {| content := "d"; measure_width := 10 |};
    {| content := " "; measure_width := 5 |};
    {| content := "e"; measure_width := 10 |} ].

(** ** The text nodes of [updateLayout] *)

(** [text.split('')], the segmentation used when no [Intl.Segmenter] is
    available: one string per character. *)
Fixpoint split (text : string) : list string :=
  match text with
  | EmptyString => []
  | String c rest => String c EmptyString :: split rest
  end.

(** The [textNodes] built by [updateLayout] from a segmentation of the
    text; [measureText] is the width [measureContext.measureText] reports
    under the node's font. *)
Definition measureAll (measureText : string -> Q) (segments : list string)
    : list TextNode :=
  map (fun word => {| content := word; measure_width := measureText word |})
      segments.

Definition textNodes (measureText : string -> Q) (text : string)
    : list TextNode :=
  measureAll measureText (split text).



(** The boxes handed to [drawText], in order. *)
Definition drawnBoxes (calls : list CanvasCall) : list BBox.t :=
  flat_map (fun c => match c with DrawText _ box => [box] | _ => [] end)
           calls.



End TxtLeaf.

(* ===================================================================== *)
(** * Layout *)
(* ===================================================================== *)

Module Layout.

(** ** Signal values *)

(** [Length = number | `${number}%` | null]; [DesiredLength] has the same
    shape. *)
Inductive Length := Pixels (v : Q) | Percent (v : Q) | Auto.

(** [typeof l === 'number'] *)
Definition isNumber (l : Length) : bool :=
  match l with Pixels _ => true | _ => false end.

(** The number held by a length already known to be one. *)
Definition asNumber (l : Length) : Q :=
  match l with Pixels v => v | _ => 0%Q end.

(** [SignalValue<T> = T | (() => T)]; a function value is kept as the
    function itself, the signals it may read being outside the model. *)
Inductive SignalValue (T : Type) :=
| Value (v : T)
| Reactive (f : unit -> T).

Arguments Value {T} v.
Arguments Reactive {T} f.

Definition unwrap {T} (s : SignalValue T) : T :=
  match s with Value v => v | Reactive f => f tt end.

Definition mapValue {T U} (g : T -> U) (s : SignalValue T) : SignalValue U :=
  match s with
  | Value v => Value (g v)
  | Reactive f => Reactive (fun u => g (f u))
  end.

(** [typeof value === 'number'] on a [SignalValue<Length>]. *)
Definition isNumberValue (s : SignalValue Length) : bool :=
  match s with Value (Pixels _) => true | _ => false end.

(** [typeof value === 'object' && typeof value.x === 'number' &&
    typeof value.y === 'number'] on a [SignalValue<SerializedVector2<Length>>]. *)
Definition isNumberPair (s : SignalValue (Length * Length)) : bool :=
  match s with Value (Pixels _, Pixels _) => true | _ => false end.

Definition pixels (v : Vector2.t) : Length * Length :=
  (Pixels (Vector2.x v), Pixels (Vector2.y v)).

Definition asVector (l : Length * Length) : Vector2.t :=
  Vector2.make (asNumber (fst l)) (asNumber (snd l)).

(** ** Flex properties and the Yoga handle *)

Inductive LengthLimit := Limit (l : Length) | MaxContent | MinContent.
Inductive FlexBasis :=
| Basis (l : Length) | BasisContent | BasisMaxContent | BasisMinContent
| BasisFitContent.
Inductive FlexDirection := Row | RowReverse | Column | ColumnReverse.
Inductive FlexWrap := NoWrap | Wrap | WrapReverse.
Inductive FlexContent :=
| ContentCenter | ContentStart | ContentEnd | SpaceBetween | SpaceAround
| SpaceEvenly | ContentStretch | ContentNormal.
Inductive FlexItems :=
| ItemsCenter | ItemsStart | ItemsEnd | ItemsStretch | ItemsBaseline
| ItemsAuto.

Inductive PositionType := Absolute | Relative.
Inductive YogaJustify :=
| JUSTIFY_CENTER | JUSTIFY_FLEX_START | JUSTIFY_FLEX_END
| JUSTIFY_SPACE_BETWEEN | JUSTIFY_SPACE_AROUND | JUSTIFY_SPACE_EVENLY.
Inductive YogaAlign :=
| ALIGN_AUTO | ALIGN_CENTER | ALIGN_FLEX_START | ALIGN_FLEX_END
| ALIGN_STRETCH | ALIGN_BASELINE | ALIGN_SPACE_BETWEEN | ALIGN_SPACE_AROUND
| ALIGN_SPACE_EVENLY.

Record Spacing := { top : Q; right : Q; bottom : Q; left : Q }.

(** The signals that [applyFlex] copies to Yoga unchanged. *)
Record FlexProps := {
  maxWidth : LengthLimit;
  maxHeight : LengthLimit;
  minWidth : LengthLimit;
  minHeight : LengthLimit;
  ratio : option Q;
  margin : Spacing;
  padding : Spacing;
  direction : FlexDirection;
  basis : option FlexBasis;
  wrap : FlexWrap;
  justifyContent : FlexContent;
  alignContent : FlexContent;
  alignItems : FlexItems;
  alignSelf : FlexItems;
  gap : Vector2.t
}.

(** The style held by a node's Yoga handle. *)
Record YogaNode := {
  yPositionType : PositionType;
  yWidth : Length;
  yHeight : Length;
  yMinWidth : LengthLimit;
  yMaxWidth : LengthLimit;
  yMinHeight : LengthLimit;
  yMaxHeight : LengthLimit;
  yAspectRatio : option Q;
  yMargin : Spacing;
  yPadding : Spacing;
  yFlexDirection : FlexDirection;
  yFlexBasis : option FlexBasis;
  yFlexWrap : FlexWrap;
  yJustifyContent : YogaJustify;
  yAlignContent : YogaAlign;
  yAlignItems : YogaAlign;
  yAlignSelf : YogaAlign;
  yGapColumn : Q;
  yGapRow : Q;
  yFlexGrow : Q;
  yFlexShrink : Q
}.

(** The linear part of [Node.localToParent]: rotation, scale and skew
    composed, as the four entries [a b c d] of the matrix. *)
Record Linear := { la : Q; lb : Q; lc : Q; ld : Q }.

Definition identity : Linear := {| la := 1; lb := 0; lc := 0; ld := 1 |}.

(** The signals of one [Layout] node. *)
Record Props := {
  isView2D : bool;               (* the node is the [View2D] root *)
  layout : option bool;          (* LayoutMode = boolean | null *)
  flex : FlexProps;
  grow : Q;
  shrink : Q;
  width : SignalValue Length;    (* what [size.x] holds *)
  height : SignalValue Length;   (* what [size.y] holds *)
  offset : Vector2.t;
  x : Q;                         (* what [x.context] holds *)
  y : Q;                         (* what [y.context] holds *)
  linear : Linear;
  sizeLockCounter : Z;
  yoga : YogaNode
}.

(** A node together with its [Layout] ancestors, nearest first: the chain
    followed by [parentTransform]. *)
Record t := { self : Props; ancestors : list Props }.

Definition chain (n : t) : list Props := self n :: ancestors n.

Definition withSelf (p : Props) (n : t) : t :=
  {| self := p; ancestors := ancestors n |}.

(** ** Writes *)

Definition setWidthProp (v : SignalValue Length) (p : Props) : Props :=
  {| isView2D := isView2D p; layout := layout p; flex := flex p;
     grow := grow p; shrink := shrink p; width := v; height := height p;
     offset := offset p; x := x p; y := y p; linear := linear p;
     sizeLockCounter := sizeLockCounter p; yoga := yoga p |}.

Definition setHeightProp (v : SignalValue Length) (p : Props) : Props :=
  {| isView2D := isView2D p; layout := layout p; flex := flex p;
     grow := grow p; shrink := shrink p; width := width p; height := v;
     offset := offset p; x := x p; y := y p; linear := linear p;
     sizeLockCounter := sizeLockCounter p; yoga := yoga p |}.

Definition setCounterProp (c : Z) (p : Props) : Props :=
  {| isView2D := isView2D p; layout := layout p; flex := flex p;
     grow := grow p; shrink := shrink p; width := width p;
     height := height p; offset := offset p; x := x p; y := y p;
     linear := linear p; sizeLockCounter := c; yoga := yoga p |}.

Definition setOffsetProp (o : Vector2.t) (p : Props) : Props :=
  {| isView2D := isView2D p; layout := layout p; flex := flex p;
     grow := grow p; shrink := shrink p; width := width p;
     height := height p; offset := o; x := x p; y := y p;
     linear := linear p; sizeLockCounter := sizeLockCounter p;
     yoga := yoga p |}.

Definition setPositionProp (v : Vector2.t) (p : Props) : Props :=
  {| isView2D := isView2D p; layout := layout p; flex := flex p;
     grow := grow p; shrink := shrink p; width := width p;
     height := height p; offset := offset p;
     x := Vector2.x v; y := Vector2.y v;
     linear := linear p; sizeLockCounter := sizeLockCounter p;
     yoga := yoga p |}.

(** [setWidth], [setHeight] and the compound setter of [size]. *)
Definition setWidth (v : SignalValue Length) (n : t) : t :=
  withSelf (setWidthProp v (self n)) n.
Definition setHeight (v : SignalValue Length) (n : t) : t :=
  withSelf (setHeightProp v (self n)) n.
Definition setSize (v : SignalValue (Length * Length)) (n : t) : t :=
  setHeight (mapValue snd v) (setWidth (mapValue fst v) n).

Definition lockSize (n : t) : t :=
  withSelf (setCounterProp (sizeLockCounter (self n) + 1) (self n)) n.

Definition releaseSize (n : t) : t :=
  withSelf (setCounterProp (sizeLockCounter (self n) - 1) (self n)) n.

Definition setOffset (o : Vector2.t) (n : t) : t :=
  withSelf (setOffsetProp o (self n)) n.

(** [setX] and [setY] through the compound setter of [position]. *)
Definition setPosition (v : Vector2.t) (n : t) : t :=
  withSelf (setPositionProp v (self n)) n.

(** ** Derived values that do not need the solver *)

Definition desiredSize (p : Props) : Length * Length :=
  (unwrap (width p), unwrap (height p)).

(** [this.layout() ?? this.parentTransform()?.layoutEnabled() ?? false],
    on the chain starting at the node; the empty chain stands for a
    missing parent. *)
Fixpoint layoutEnabled (nodes : list Props) : bool :=
  match nodes with
  | [] => false
  | p :: parents =>
      match layout p with
      | Some mode => mode
      | None => layoutEnabled parents
      end
  end.

Definition isLayoutRoot (nodes : list Props) : bool :=
  negb (layoutEnabled nodes) || negb (layoutEnabled (tail nodes)).

(** [applyFlex]: the style of the node's Yoga handle afterwards.  A
    [switch] with no matching case leaves the previous style in place. *)
Definition applyFlex (n : t) : YogaNode :=
  let p := self n in
  let fp := flex p in
  let old := yoga p in
  let size := desiredSize p in
  let locked := 0 <? sizeLockCounter p in
  {| yPositionType := if isLayoutRoot (chain n) then Absolute else Relative;
     yWidth := fst size;
     yHeight := snd size;
     yMinWidth := minWidth fp;
     yMaxWidth := maxWidth fp;
     yMinHeight := minHeight fp;
     yMaxHeight := maxHeight fp;
     yAspectRatio := ratio fp;
     yMargin := margin fp;
     yPadding := padding fp;
     yFlexDirection := direction fp;
     yFlexBasis := basis fp;
     yFlexWrap := wrap fp;
     yJustifyContent :=
       match justifyContent fp with
       | ContentCenter => JUSTIFY_CENTER
       | ContentStart => JUSTIFY_FLEX_START
       | ContentEnd => JUSTIFY_FLEX_END
       | SpaceBetween => JUSTIFY_SPACE_BETWEEN
       | SpaceAround => JUSTIFY_SPACE_AROUND
       | SpaceEvenly => JUSTIFY_SPACE_EVENLY
       | _ => yJustifyContent old
       end;
     yAlignContent :=
       match alignContent fp with
       | ContentCenter => ALIGN_CENTER
       | ContentStart => ALIGN_FLEX_START
       | ContentEnd => ALIGN_FLEX_END
       | SpaceBetween => ALIGN_SPACE_BETWEEN
       | SpaceAround => ALIGN_SPACE_AROUND
       | SpaceEvenly => ALIGN_SPACE_EVENLY
       | ContentStretch => ALIGN_STRETCH
       | ContentNormal => yAlignContent old
       end;
     yAlignItems :=
       match alignItems fp with
       | ItemsCenter => ALIGN_CENTER
       | ItemsStart => ALIGN_FLEX_START
       | ItemsEnd => ALIGN_FLEX_END
       | ItemsStretch => ALIGN_STRETCH
       | ItemsBaseline => ALIGN_BASELINE
       | ItemsAuto => yAlignItems old
       end;
     yAlignSelf :=
       match alignSelf fp with
       | ItemsCenter => ALIGN_CENTER
       | ItemsStart => ALIGN_FLEX_START
       | ItemsEnd => ALIGN_FLEX_END
       | ItemsStretch => ALIGN_STRETCH
       | ItemsBaseline => ALIGN_BASELINE
       | ItemsAuto => yAlignSelf old
       end;
     yGapColumn := Vector2.x (gap fp);
     yGapRow := Vector2.y (gap fp);
     yFlexGrow := if locked then 0%Q else grow p;
     yFlexShrink := if locked then 0%Q else shrink p |}.

(** ** The external box solver *)

(** Yoga, seen from one node with the rest of the tree held fixed: the box
    [yoga.getComputedLayout()] reports for the node, and the box it reports
    for the node's parent, once the layout has been calculated for the
    style that [applyFlex] gave the node. *)
Record Solver := {
  computedLayout : YogaNode -> BBox.t;
  parentLayout : YogaNode -> BBox.t
}.

Definition getComputedLayout (E : Solver) (n : t) : BBox.t :=
  computedLayout E (applyFlex n).

Definition computedSize (E : Solver) (n : t) : Vector2.t :=
  BBox.size (getComputedLayout E n).

Definition computedPosition (E : Solver) (n : t) : Vector2.t :=
  let box := getComputedLayout E n in
  let px := (BBox.x box + BBox.width box / 2 * (1 + Vector2.x (offset (self n))))%Q in
  let py := (BBox.y box + BBox.height box / 2 * (1 + Vector2.y (offset (self n))))%Q in
  match ancestors n with
  | [] => Vector2.make px py
  | _ :: _ =>
      let parentRect := parentLayout E (applyFlex n) in
      Vector2.make (px - BBox.width parentRect / 2)%Q
                   (py - BBox.height parentRect / 2)%Q
  end.

Definition getX (E : Solver) (n : t) : Q :=
  if isLayoutRoot (chain n) then x (self n)
  else Vector2.x (computedPosition E n).

Definition getY (E : Solver) (n : t) : Q :=
  if isLayoutRoot (chain n) then y (self n)
  else Vector2.y (computedPosition E n).

Definition position (E : Solver) (n : t) : Vector2.t :=
  Vector2.make (getX E n) (getY E n).

(** ** Computed cells *)

(** What the derivations below do to Yoga and to the nodes; [depth]
    counts the steps up the chain from the node that was asked. *)
Inductive Call :=
| Detach (depth : nat)           (* yoga.getParent()?.removeChild(yoga) *)
| ApplyFont (depth : nat)        (* the body of applyFont *)
| ApplyFlex (depth : nat)        (* the body of applyFlex *)
| CalculateLayout (depth : nat) (w h : Length).

Definition isCalculateLayout (c : Call) : bool :=
  match c with CalculateLayout _ _ _ => true | _ => false end.

(** The methods of [Layout] declared [@computed()] that make calls or
    lead to one that does. *)
Inductive Method :=
| OfAppendedToView
| OfRequestLayoutUpdate
| OfRequestFontUpdate
| OfUpdateLayout
| OfApplyFont
| OfApplyFlex
| OfComputedSize
| OfComputedPosition.

#[global] Instance Method_eq_dec : EqDecision Method.
Proof. solve_decision. Defined.

(** What a cell caches: [undefined], a boolean or a vector. *)
Inductive Result :=
| Void
| Flag (b : bool)
| Point (v : Vector2.t).

(** [if (v)] *)
Definition truthy (v : Result) : bool :=
  match v with Void => false | Flag b => b | Point _ => true end.

(** One cell per method and node; a cell that holds nothing is dirty.
    [trace] lists the calls made so far. *)
Record Cells := { cell : Method -> gmap nat Result; trace : list Call }.

(** Every cell dirty, nothing called yet. *)
Definition fresh : Cells := {| cell := fun _ => ∅; trace := [] |}.

Definition cached (m : Method) (d : nat) (st : Cells) : option Result :=
  cell st m !! d.

Definition store (m : Method) (d : nat) (v : Result) (st : Cells) : Cells :=
  {| cell := fun m' => if decide (m' = m) then <[d := v]> (cell st m')
                       else cell st m';
     trace := trace st |}.



Definition call (c : Call) (st : Cells) : Cells :=
  {| cell := cell st; trace := trace st ++ [c] |}.

(** The calls made between two states. *)
Definition since (st st' : Cells) : list Call :=
  drop (length (trace st)) (trace st').

(** Modelled from the spec: the [@computed()] decorator, which is not part
    of the sources at hand.  A read of a cell that is not dirty returns
    the cached value with no re-evaluation; a read of a dirty cell runs
    the derivation, stores the result and clears the dirty flag.  A
    derivation that throws ([None]) leaves the cell dirty.  Which writes
    make which cells dirty is the business of the dependency graph and is
    not modelled: the states below are arbitrary. *)
Definition computed (m : Method) (d : nat)
    (derive : Cells -> option (Result * Cells)) (st : Cells)
    : option (Result * Cells) :=
  match cached m d st with
  | Some v => Some (v, st)
  | None =>
      match derive st with
      | Some (v, st') => Some (v, store m d v st')
      | None => None
      end
  end.

(** The overrides in [View2D] carry no decorator of their own.  Whether
    the decorator of the overridden method wraps them as well depends on
    the decorator's code; [overridesCached] leaves it open. *)
Definition overriding (overridesCached : bool) (m : Method) (d : nat)
    (derive : Cells -> option (Result * Cells)) (st : Cells)
    : option (Result * Cells) :=
  if overridesCached then computed m d derive st else derive st.

(** ** Requesting a layout update *)

(** In what follows [nodes] is the node a method runs on followed by its
    ancestors, nearest first, and [below] the nodes under it on the chain,
    nearest first; the node's depth is the length of [below]. *)

Definition appendedToView (below nodes : list Props) (st : Cells)
    : option (Result * Cells) :=
  let d := length below in
  computed OfAppendedToView d
    (fun st =>
       let root := isLayoutRoot nodes in
       Some (Flag root, if root then call (Detach d) st else st)) st.

Definition applyFont (d : nat) (st : Cells) : option (Result * Cells) :=
  computed OfApplyFont d (fun st => Some (Void, call (ApplyFont d) st)) st.



(** [requestFontUpdate], with the override of [View2D]. *)
Fixpoint requestFontUpdate (overridesCached : bool)
    (below nodes : list Props) (st : Cells) : option (Result * Cells) :=
  match nodes with
  | [] => Some (Void, st)        (* parentTransform()?. without a parent *)
  | p :: parents =>
      let d := length below in
      if isView2D p then
        overriding overridesCached OfRequestFontUpdate d (applyFont d) st
      else
        computed OfRequestFontUpdate d
          (fun st =>
             match appendedToView below nodes st with
             | Some (_, st1) =>
                 match requestFontUpdate overridesCached (p :: below)
                         parents st1 with
                 | Some (_, st2) => applyFont d st2
                 | None => None
                 end
             | None => None
             end) st
  end.






(** Whether a request made on the node at the head of [nodes] reaches the
    derivation of its layout root: every cell of [requestLayoutUpdate]
    on the way is dirty. *)
Fixpoint pending (overridesCached : bool) (below nodes : list Props)
    (st : Cells) : bool :=
  match nodes with
  | [] => false
  | p :: parents =>
      let dirty :=
        match cached OfRequestLayoutUpdate (length below) st with
        | None => true
        | Some _ => false
        end in
      if isView2D p then negb overridesCached || dirty
      else dirty && (isLayoutRoot nodes
                     || pending overridesCached (p :: below) parents st)
  end.

(** The cached values of [appendedToView] are those of [isLayoutRoot] on
    the chain as it is: what the dependency graph sees to. *)
Definition consistent (nodes : list Props) (st : Cells) : Prop :=
  forall k v, cached OfAppendedToView k st = Some v ->
              truthy v = isLayoutRoot (drop k nodes).




(** ** Size tweens *)

(** The writes a size tween performs. *)
Inductive Op :=
| SetWidth (v : SignalValue Length)             (* this.size.x(v) *)
| SetHeight (v : SignalValue Length)            (* this.size.y(v) *)
| SetSize (v : SignalValue (Length * Length))   (* this.size(v) *)
| LockSize                                      (* this.lockSize() *)
| ReleaseSize.                                  (* this.releaseSize() *)

Definition exec (op : Op) (n : t) : t :=
  match op with
  | SetWidth v => setWidth v n
  | SetHeight v => setHeight v n
  | SetSize v => setSize v n
  | LockSize => lockSize n
  | ReleaseSize => releaseSize n
  end.

Definition run (ops : list Op) (n : t) : t :=
  fold_left (fun s op => exec op s) ops n.

(** A generator that has been started: the writes it performs before each
    of its suspension points, and last those before it returns. *)
Definition Script := list (list Op).

(** Modelled from the spec: [tween] of the core package, which is not part
    of the sources at hand.  It invokes the updater once per frame with the
    progress of that frame, suspends after each of them, and completes with
    one invocation at progress 1; [frames] lists the progress values the
    scheduler's clock yields before completion (none for a zero or
    negative duration). *)
Definition tween (frames : list Q) (onProgress : Q -> list Op) : Script :=
  map onProgress frames ++ [onProgress 1%Q].

(** [yield* body; after]: the writes after the body run when its last
    segment does. *)
Fixpoint andThen (body : Script) (after : list Op) : Script :=
  match body with
  | [] => [after]
  | [final] => [final ++ after]
  | ops :: rest => ops :: andThen rest after
  end.

(** [before; yield* body]: the writes before the body run with its first
    segment. *)
Definition startWith (before : list Op) (body : Script) : Script :=
  match body with
  | [] => [before]
  | ops :: rest => (before ++ ops) :: rest
  end.

(** [before; yield* body; after] *)
Definition around (before : list Op) (body : Script) (after : list Op)
    : Script :=
  startWith before (andThen body after).

Definition when (b : bool) (ops : list Op) : list Op :=
  if b then ops else [].

Section Tweens.

Variable E : Solver.
Variable timingFunction : Q -> Q.

Definition tweenWidth (value : SignalValue Length) (frames : list Q)
    (interpolationFunction : Length -> Length -> Q -> Length) (n : t)
    : Script :=
  let width := fst (desiredSize (self n)) in
  let lock := negb (isNumber width) || negb (isNumberValue value) in
  let from :=
    if lock then Vector2.x (computedSize E n) else asNumber width in
  let to :=
    if lock then Vector2.x (computedSize E (setWidth value n))
    else asNumber (unwrap value) in
  around
    (when lock [SetWidth value]
       ++ [SetWidth (Value (Pixels from))]
       ++ when lock [LockSize])
    (tween frames (fun p =>
       [SetWidth (Value (interpolationFunction (Pixels from) (Pixels to)
                                               (timingFunction p)))]))
    ([SetWidth value] ++ when lock [ReleaseSize]).

Definition tweenHeight (value : SignalValue Length) (frames : list Q)
    (interpolationFunction : Length -> Length -> Q -> Length) (n : t)
    : Script :=
  let height := snd (desiredSize (self n)) in
  let lock := negb (isNumber height) || negb (isNumberValue value) in
  let from :=
    if lock then Vector2.y (computedSize E n) else asNumber height in
  let to :=
    if lock then Vector2.y (computedSize E (setHeight value n))
    else asNumber (unwrap value) in
  around
    (when lock [SetHeight value]
       ++ [SetHeight (Value (Pixels from))]
       ++ when lock [LockSize])
    (tween frames (fun p =>
       [SetHeight (Value (interpolationFunction (Pixels from) (Pixels to)
                                                (timingFunction p)))]))
    ([SetHeight value] ++ when lock [ReleaseSize]).

Definition tweenSize (value : SignalValue (Length * Length))
    (frames : list Q)
    (interpolationFunction : Vector2.t -> Vector2.t -> Q -> Vector2.t)
    (n : t) : Script :=
  let size := desiredSize (self n) in
  let from :=
    if negb (isNumber (fst size)) || negb (isNumber (snd size))
    then computedSize E n
    else asVector size in
  let literal := isNumberPair value in
  let to :=
    if literal then asVector (unwrap value)
    else computedSize E (setSize value n) in
  around
    (when (negb literal) [SetSize value]
       ++ [SetSize (Value (pixels from)); LockSize])
    (tween frames (fun p =>
       [SetSize (Value (pixels (interpolationFunction from to
                                                      (timingFunction p))))]))
    [ReleaseSize; SetSize value].

End Tweens.

(** ** Running generators side by side *)

(** Modelled from the spec: the tasks of the scheduler of the core
    package, which is not part of the sources at hand.  A task is a
    generator that has not started yet, is suspended with the rest of its
    script, or has completed; it only suspends at its suspension points,
    and everything between two of them runs without interruption. *)
Inductive Task :=
| Pending (start : t -> Script)
| Suspended (rest : Script)
| Completed.

Definition suspend (rest : Script) : Task :=
  match rest with [] => Completed | _ :: _ => Suspended rest end.

(** Resume a task until it suspends again or completes. *)
Definition resume (task : Task) (n : t) : Task * t :=
  match task with
  | Pending start =>
      match start n with
      | [] => (Completed, n)
      | ops :: rest => (suspend rest, run ops n)
      end
  | Suspended [] => (Completed, n)
  | Suspended (ops :: rest) => (suspend rest, run ops n)
  | Completed => (Completed, n)
  end.

(** Resume the tasks named by [order], one after the other; an index
    outside the pool resumes nothing.  The scheduler resumes its tasks in
    registration order on every tick; any order is allowed here. *)
Fixpoint schedule (order : list nat) (pool : list Task) (n : t)
    : list Task * t :=
  match order with
  | [] => (pool, n)
  | i :: order' =>
      match pool !! i with
      | None => schedule order' pool n
      | Some task =>
          let '(task', n') := resume task n in
          schedule order' (<[i := task']> pool) n'
      end
  end.

Definition isCompleted (task : Task) : bool :=
  match task with Completed => true | _ => false end.

(** ** Counting locks *)

Definition isLock (op : Op) : bool :=
  match op with LockSize => true | _ => false end.

Definition isRelease (op : Op) : bool :=
  match op with ReleaseSize => true | _ => false end.

Definition locks (ops : list Op) : nat := length (List.filter isLock ops).

Definition releases (ops : list Op) : nat :=
  length (List.filter isRelease ops).

(** What a sequence of writes adds to [sizeLockCounter]. *)
Definition delta (ops : list Op) : Z :=
  Z.of_nat (locks ops) - Z.of_nat (releases ops).

(** The locks a task has taken and not yet released: what the rest of its
    script will subtract from the counter. *)
Definition held (task : Task) : Z :=
  match task with
  | Suspended rest => - delta (concat rest)
  | _ => 0
  end.

Definition heldBy (pool : list Task) : Z :=
  fold_right (fun task acc => held task + acc) 0 pool.

(** The size tweens a node offers, with their arguments. *)
Inductive SizeTween :=
| TweenWidth (value : SignalValue Length) (frames : list Q)
    (interpolationFunction : Length -> Length -> Q -> Length)
| TweenHeight (value : SignalValue Length) (frames : list Q)
    (interpolationFunction : Length -> Length -> Q -> Length)
| TweenSize (value : SignalValue (Length * Length)) (frames : list Q)
    (interpolationFunction : Vector2.t -> Vector2.t -> Q -> Vector2.t).

Definition startTween (E : Solver) (timingFunction : Q -> Q)
    (tw : SizeTween) : t -> Script :=
  match tw with
  | TweenWidth value frames f => tweenWidth E timingFunction value frames f
  | TweenHeight value frames f => tweenHeight E timingFunction value frames f
  | TweenSize value frames f => tweenSize E timingFunction value frames f
  end.

(** The [lock] constant of [tweenWidth] and [tweenHeight]; [tweenSize]
    locks in every case. *)
Definition locking (tw : SizeTween) (n : t) : bool :=
  match tw with
  | TweenWidth value _ _ =>
      negb (isNumber (fst (desiredSize (self n)))) || negb (isNumberValue value)
  | TweenHeight value _ _ =>
      negb (isNumber (snd (desiredSize (self n)))) || negb (isNumberValue value)
  | TweenSize _ _ _ => true
  end.

(** A task that has not started yet will leave the counter where it
    found it. *)
Definition balanced (task : Task) : Prop :=
  match task with
  | Pending start => forall n, delta (concat (start n)) = 0
  | _ => True
  end.

(** Sequences made of writes to the width, the height or the size only. *)
Definition isSetWidth (op : Op) : Prop := exists v, op = SetWidth v.
Definition isSetHeight (op : Op) : Prop := exists v, op = SetHeight v.
Definition isSetSize (op : Op) : Prop := exists v, op = SetSize v.

(** The generator ends by releasing the lock and then writing [final]. *)
Definition releasesThenWrites (script : Script) (final : Op) : Prop :=
  exists ops, concat script = ops ++ [ReleaseSize; final].

(** The generator ends by writing [final] and then releasing the lock. *)
Definition writesThenReleases (script : Script) (final : Op) : Prop :=
  exists ops, concat script = ops ++ [final; ReleaseSize].

(** ** Sample nodes *)

(** A fresh Yoga handle, with Yoga's defaults. *)
Definition yogaCreate : YogaNode :=
  {| yPositionType := Relative; yWidth := Auto; yHeight := Auto;
     yMinWidth := Limit Auto; yMaxWidth := Limit Auto;
     yMinHeight := Limit Auto; yMaxHeight := Limit Auto;
     yAspectRatio := None;
     yMargin := {| top := 0; right := 0; bottom := 0; left := 0 |};
     yPadding := {| top := 0; right := 0; bottom := 0; left := 0 |};
     yFlexDirection := Column; yFlexBasis := None; yFlexWrap := NoWrap;
     yJustifyContent := JUSTIFY_FLEX_START; yAlignContent := ALIGN_FLEX_START;
     yAlignItems := ALIGN_STRETCH; yAlignSelf := ALIGN_AUTO;
     yGapColumn := 0; yGapRow := 0; yFlexGrow := 0; yFlexShrink := 0 |}.

(** A node as the [@initial] decorators leave it. *)
Definition initialProps : Props :=
  {| isView2D := false; layout := None;
     flex := {| maxWidth := Limit Auto; maxHeight := Limit Auto;
                minWidth := Limit Auto; minHeight := Limit Auto;
                ratio := None;
                margin := {| top := 0; right := 0; bottom := 0; left := 0 |};
                padding := {| top := 0; right := 0; bottom := 0; left := 0 |};
                direction := Row; basis := None; wrap := NoWrap;
                justifyContent := ContentStart; alignContent := ContentNormal;
                alignItems := ItemsStretch; alignSelf := ItemsAuto;
                gap := Vector2.zero |};
     grow := 0; shrink := 1;
     width := Value Auto; height := Value Auto;
     offset := Vector2.zero; x := 0; y := 0;
     linear := identity; sizeLockCounter := 0; yoga := yogaCreate |}.

Definition withLayout (mode : option bool) (p : Props) : Props :=
  {| isView2D := isView2D p; layout := mode; flex := flex p;
     grow := grow p; shrink := shrink p; width := width p;
     height := height p; offset := offset p; x := x p; y := y p;
     linear := linear p; sizeLockCounter := sizeLockCounter p;
     yoga := yoga p |}.

Definition withGrow (g : Q) (p : Props) : Props :=
  {| isView2D := isView2D p; layout := layout p; flex := flex p;
     grow := g; shrink := shrink p; width := width p;
     height := height p; offset := offset p; x := x p; y := y p;
     linear := linear p; sizeLockCounter := sizeLockCounter p;
     yoga := yoga p |}.

Definition view2D : Props :=
  {| isView2D := true; layout := None; flex := flex initialProps;
     grow := 0; shrink := 1;
     width := Value (Pixels 1920); height := Value (Pixels 1080);
     offset := Vector2.zero; x := 0; y := 0;
     linear := identity; sizeLockCounter := 0; yoga := yogaCreate |}.

(** A node on its own. *)
Definition alone (p : Props) : t := {| self := p; ancestors := [] |}.

(** A solver for the samples: a length in pixels is taken as it is, a
    percentage refers to a 1920 by 1080 parent, and an automatic length
    is the size of a content of 320 by 180, or all of the parent when the
    node may grow. *)
Definition sampleLength (parent content : Q) (growing : bool) (l : Length)
    : Q :=
  match l with
  | Pixels v => v
  | Percent v => (parent * v / 100)%Q
  | Auto => if growing then parent else content
  end.

Definition sampleSolver : Solver :=
  {| computedLayout := fun style =>
       let growing := negb (Qle_bool (yFlexGrow style) 0) in
       BBox.make 0 0 (sampleLength 1920 320 growing (yWidth style))
                     (sampleLength 1080 180 growing (yHeight style));
     parentLayout := fun _ => BBox.make 0 0 1920 1080 |}.

Definition linearLerp (from to : Length) (p : Q) : Length :=
  Pixels (asNumber from + (asNumber to - asNumber from) * p)%Q.

Definition vectorLerp (from to : Vector2.t) (p : Q) : Vector2.t :=
  Vector2.add from (Vector2.scale (Vector2.sub to from) p).

(** The linear timing function. *)
Definition linearTiming (p : Q) : Q := p.

(** ** More of the node *)

Definition setYogaProp (style : YogaNode) (p : Props) : Props :=
  {| isView2D := isView2D p; layout := layout p; flex := flex p;
     grow := grow p; shrink := shrink p; width := width p;
     height := height p; offset := offset p; x := x p; y := y p;
     linear := linear p; sizeLockCounter := sizeLockCounter p;
     yoga := style |}.

(** The node once [applyFlex] has run: its Yoga handle holds the style
    that [applyFlex] computed. *)
Definition flexApplied (n : t) : t :=
  withSelf (setYogaProp (applyFlex n) (self n)) n.

Definition setAlignSelfFlex (v : FlexItems) (fp : FlexProps) : FlexProps :=
  {| maxWidth := maxWidth fp; maxHeight := maxHeight fp;
     minWidth := minWidth fp; minHeight := minHeight fp; ratio := ratio fp;
     margin := margin fp; padding := padding fp; direction := direction fp;
     basis := basis fp; wrap := wrap fp;
     justifyContent := justifyContent fp; alignContent := alignContent fp;
     alignItems := alignItems fp; alignSelf := v; gap := gap fp |}.

Definition setAlignContentFlex (v : FlexContent) (fp : FlexProps) : FlexProps :=
  {| maxWidth := maxWidth fp; maxHeight := maxHeight fp;
     minWidth := minWidth fp; minHeight := minHeight fp; ratio := ratio fp;
     margin := margin fp; padding := padding fp; direction := direction fp;
     basis := basis fp; wrap := wrap fp;
     justifyContent := justifyContent fp; alignContent := v;
     alignItems := alignItems fp; alignSelf := alignSelf fp; gap := gap fp |}.

Definition setFlexProp (fp : FlexProps) (p : Props) : Props :=
  {| isView2D := isView2D p; layout := layout p; flex := fp;
     grow := grow p; shrink := shrink p; width := width p;
     height := height p; offset := offset p; x := x p; y := y p;
     linear := linear p; sizeLockCounter := sizeLockCounter p;
     yoga := yoga p |}.

(** Writes to the [alignSelf] and [alignContent] signals. *)
Definition setAlignSelf (v : FlexItems) (n : t) : t :=
  withSelf (setFlexProp (setAlignSelfFlex v (flex (self n))) (self n)) n.

Definition setAlignContent (v : FlexContent) (n : t) : t :=
  withSelf (setFlexProp (setAlignContentFlex v (flex (self n))) (self n)) n.

(** The Yoga value that the [switch] on [alignSelf] sets, if any. *)
Definition alignOfItems (v : FlexItems) : option YogaAlign :=
  match v with
  | ItemsCenter => Some ALIGN_CENTER
  | ItemsStart => Some ALIGN_FLEX_START
  | ItemsEnd => Some ALIGN_FLEX_END
  | ItemsStretch => Some ALIGN_STRETCH
  | ItemsBaseline => Some ALIGN_BASELINE
  | ItemsAuto => None
  end.

Definition isApplyFont (c : Call) : bool :=
  match c with ApplyFont _ => true | _ => false end.

(** How far up a font update goes: to the first [View2D], or to the top
    of the chain. *)
Fixpoint fontReach (nodes : list Props) : nat :=
  match nodes with
  | [] => 0
  | p :: parents => if isView2D p then 1 else S (fontReach parents)
  end.

(** ** The children that take part in the layout *)

(** The scene below a [Layout] node: [Layout] nodes, with an identifier,
    their mode and their children, and nodes of other kinds. *)
#[warnings="-register-all"]
Inductive SceneNode :=
| LayoutChild (id : nat) (mode : option bool) (children : list SceneNode)
| OtherNode (children : list SceneNode).

Definition nodeId (node : SceneNode) : nat :=
  match node with LayoutChild id _ _ => id | OtherNode _ => 0%nat end.

(** Yoga's tree: for each handle, named after its node, its children in
    order.  [yoga.getParent()?.removeChild(yoga)] takes a handle out of
    the children of whichever handle has it. *)
Definition removeFromParent (id : nat) (tree : gmap nat (list nat))
    : gmap nat (list nat) :=
  List.filter (fun c => negb (c =? id)%nat) <$> tree.

(** The [while (queue.length)] loop of [layoutChildren].  [enabled] is
    [this.layoutEnabled()], which a child without a mode of its own
    inherits, [this] being its parent transform; [None] when the fuel
    runs out. *)
Fixpoint layoutChildrenLoop (fuel : nat) (enabled : bool)
    (queue result : list SceneNode) (tree : gmap nat (list nat))
    : option (list SceneNode * gmap nat (list nat)) :=
  match queue with
  | [] => Some (result, tree)
  | child :: queue' =>
      match fuel with
      | O => None
      | S fuel' =>
          match child with
          | LayoutChild id mode _ =>
              if default enabled mode
              then layoutChildrenLoop fuel' enabled queue' (result ++ [child])
                                      (removeFromParent id tree)
              else layoutChildrenLoop fuel' enabled queue' result tree
          | OtherNode children =>
              layoutChildrenLoop fuel' enabled (children ++ queue') result tree
          end
      end
  end.

(** [layoutChildren] of the node [this]: the loop, then all children of
    the node's handle are removed and the handles found are inserted in
    order. *)
Definition layoutChildren (fuel : nat) (this : nat) (enabled : bool)
    (children : list SceneNode) (tree : gmap nat (list nat))
    : option (list SceneNode * gmap nat (list nat)) :=
  match layoutChildrenLoop fuel enabled children [] tree with
  | Some (result, tree') => Some (result, <[this := map nodeId result]> tree')
  | None => None
  end.

(** The number of nodes of a scene. *)
Fixpoint weight (node : SceneNode) : nat :=
  match node with
  | LayoutChild _ _ children => S (list_sum (map weight children))
  | OtherNode children => S (list_sum (map weight children))
  end.

(** The [Layout] nodes met first on the way down from a node, through
    nodes of other kinds only, that are laid out. *)
Fixpoint nearest (enabled : bool) (node : SceneNode) : list SceneNode :=
  match node with
  | LayoutChild id mode children =>
      if default enabled mode then [node] else []
  | OtherNode children => flat_map (nearest enabled) children
  end.

(** A list of handles without those named in [ids]. *)
Definition without (ids : list nat) (handles : list nat) : list nat :=
  List.filter (fun c => negb (existsb (Nat.eqb c) ids)) handles.

(** A scene to collect the layout children of. *)
Definition sampleScene : list SceneNode :=
  [ LayoutChild 1 None [LayoutChild 2 None []];
    OtherNode [LayoutChild 3 (Some false) [LayoutChild 4 (Some true) []];
               LayoutChild 5 (Some true) []];
    LayoutChild 6 None [] ].

End Layout.

(* ===================================================================== *)
(** * Placement, on binary64 *)
(* ===================================================================== *)

(** [moveOffset] and [localToParent] compute on JavaScript numbers; they
    are embedded over binary64 itself, so that what is evaluated below is
    what the code computes. *)
Module Binary64.

Local Open Scope float_scope.

(** [Vector2] of the core package, on JavaScript numbers. *)
Record Vector2 := vec { vx : float; vy : float }.

Definition zero : Vector2 := vec 0 0.
Definition add (a b : Vector2) : Vector2 := vec (vx a + vx b) (vy a + vy b).
Definition sub (a b : Vector2) : Vector2 := vec (vx a - vx b) (vy a - vy b).
Definition mul (a b : Vector2) : Vector2 := vec (vx a * vx b) (vy a * vy b).
Definition scale (a : Vector2) (k : float) : Vector2 :=
  vec (vx a * k) (vy a * k).

(** [exactlyEquals]: [===] on both coordinates. *)
Definition exactlyEquals (a b : Vector2) : bool :=
  (vx a =? vx b) && (vy a =? vy b).

(** The six entries of a 2D [DOMMatrix]: a point [(x, y)] is sent to
    [(a x + c y + e, b x + d y + f)]. *)
Record DOMMatrix := matrix {
  ma : float; mb : float; mc : float; md : float; me : float; mf : float }.

(** [translateSelf(tx, ty)] post-multiplies by a translation. *)
Definition translateSelf (m : DOMMatrix) (tx ty : float) : DOMMatrix :=
  matrix (ma m) (mb m) (mc m) (md m)
         (ma m * tx + mc m * ty + me m) (mb m * tx + md m * ty + mf m).

Definition transformPoint (m : DOMMatrix) (p : Vector2) : Vector2 :=
  vec (ma m * vx p + mc m * vy p + me m) (mb m * vx p + md m * vy p + mf m).

Record BBox := { left : float; top : float; width : float; height : float }.

(** What [moveOffset] and [localToParent] read of a node and write to
    it. *)
Record Node := {
  isLayoutRoot : bool;
  x : float;                     (* the signal [x] as stored *)
  y : float;
  offset : Vector2;
  rotationScale : float * float * float * float;
                                 (* the entries a, b, c, d of the node's
                                    rotation and scale *)
  layout : BBox;                 (* yoga.getComputedLayout() *)
  parentLayout : option BBox     (* that of the parent transform *)
}.

Definition setOffset (o : Vector2) (n : Node) : Node :=
  {| isLayoutRoot := isLayoutRoot n; x := x n; y := y n; offset := o;
     rotationScale := rotationScale n; layout := layout n;
     parentLayout := parentLayout n |}.

Definition setPosition (v : Vector2) (n : Node) : Node :=
  {| isLayoutRoot := isLayoutRoot n; x := vx v; y := vy v;
     offset := offset n; rotationScale := rotationScale n;
     layout := layout n; parentLayout := parentLayout n |}.

Definition computedSize (n : Node) : Vector2 :=
  vec (width (layout n)) (height (layout n)).

Definition computedPosition (n : Node) : Vector2 :=
  let box := layout n in
  let px := left box + (width box / 2) * (1 + vx (offset n)) in
  let py := top box + (height box / 2) * (1 + vy (offset n)) in
  match parentLayout n with
  | Some parentRect => vec (px - width parentRect / 2) (py - height parentRect / 2)
  | None => vec px py
  end.

Definition getX (n : Node) : float :=
  if isLayoutRoot n then x n else vx (computedPosition n).

Definition getY (n : Node) : float :=
  if isLayoutRoot n then y n else vy (computedPosition n).

Definition position (n : Node) : Vector2 := vec (getX n) (getY n).

(** [Node.localToParent], which is not part of the sources at hand, after
    [scalingRotationMatrix] ("a simplified version of localToParent"): a
    translation to the node's position followed by its rotation and
    scale. *)
Definition nodeLocalToParent (n : Node) : DOMMatrix :=
  let '(a, b, c, d) := rotationScale n in
  matrix a b c d (getX n) (getY n).

(** [this.size()] reads [computedSize] through [getWidth] and
    [getHeight]. *)
Definition localToParent (n : Node) : DOMMatrix :=
  let m := nodeLocalToParent n in
  if negb (exactlyEquals (offset n) zero) then
    let translate := scale (mul (computedSize n) (offset n)) (-0.5) in
    translateSelf m (vx translate) (vy translate)
  else m.

Definition moveOffset (offset' : Vector2) (n : Node) : Node :=
  let size := scale (computedSize n) 0.5 in
  let oldOffset := mul (offset n) size in
  let newOffset := mul offset' size in
  let n1 := setOffset offset' n in
  setPosition (sub (add (position n1) newOffset) oldOffset) n1.

(** A layout root of 200 by 100 at (100, 50), its offset in the middle,
    scaled by [k]. *)
Definition scaled (k : float) : Node :=
  {| isLayoutRoot := true; x := 100; y := 50; offset := zero;
     rotationScale := (k, 0, 0, k);
     layout := {| left := 0; top := 0; width := 200; height := 100 |};
     parentLayout := None |}.

End Binary64.

(* ===================================================================== *)
(** * Properties of the image exporter *)
(* ===================================================================== *)

Section ExporterFacts.

Import ImageExporter.

Implicit Types (st : Exporter) (sched : Schedule) (signal : AbortSignal).

Lemma onAcks_hot frames st : hot (onAcks frames st) = hot st.
Proof.
  revert st; induction frames as [|f frames IH]; intros st; simpl; [done|].
  rewrite IH. unfold onAck. by destruct (hot st) eqn:Hhot.
Qed.

Lemma onAcks_effects frames st : effects (onAcks frames st) = effects st.
Proof.
  revert st; induction frames as [|f frames IH]; intros st; simpl; [done|].
  rewrite IH. unfold onAck. by destruct (hot st) eqn:Hhot.
Qed.

Lemma onAcks_lookup frames st :
  frameLookup (onAcks frames st) ⊆ frameLookup st.
Proof.
  revert st; induction frames as [|f frames IH]; intros st; simpl; [done|].
  etrans; [apply IH|]. unfold onAck.
  destruct (hot st); simpl; [apply subseteq_difference_l|]; done.
Qed.

Lemma sleep_hot acks st : hot (sleep acks st) = hot st.
Proof. unfold sleep. by rewrite onAcks_hot. Qed.

Lemma sleep_effects acks st :
  effects (sleep acks st) = effects st ++ [Timeout EXPORT_RETRY_DELAY].
Proof. unfold sleep. by rewrite onAcks_effects. Qed.

Lemma sleep_lookup acks st : frameLookup (sleep acks st) ⊆ frameLookup st.
Proof. unfold sleep. etrans; [apply onAcks_lookup|]. done. Qed.

Lemma afterSleeps_S k acks sched st :
  afterSleeps (S k) (acks :: sched) st = afterSleeps k sched (sleep acks st).
Proof. reflexivity. Qed.

Lemma afterSleeps_effects k sched st :
  (k <= length sched)%nat ->
  effects (afterSleeps k sched st)
  = effects st ++ repeat (Timeout EXPORT_RETRY_DELAY) k.
Proof.
  revert sched st; induction k as [|k IH]; intros sched st Hk.
  - unfold afterSleeps. rewrite take_0. simpl. by rewrite app_nil_r.
  - destruct sched as [|acks sched]; simpl in Hk; [lia|].
    rewrite afterSleeps_S, IH by lia. rewrite sleep_effects.
    by rewrite <- app_assoc.
Qed.

Lemma afterSleeps_lookup k sched st :
  frameLookup (afterSleeps k sched st) ⊆ frameLookup st.
Proof.
  revert sched st; induction k as [|k IH]; intros sched st.
  - unfold afterSleeps. by rewrite take_0.
  - destruct sched as [|acks sched]; [done|].
    rewrite afterSleeps_S. etrans; [apply IH|]. apply sleep_lookup.
Qed.

Lemma afterSleeps_hot k sched st : hot (afterSleeps k sched st) = hot st.
Proof.
  revert sched st; induction k as [|k IH]; intros sched st.
  - unfold afterSleeps. by rewrite take_0.
  - destruct sched as [|acks sched]; [done|].
    by rewrite afterSleeps_S, IH, sleep_hot.
Qed.

Lemma waited_S signal i k acks sched st :
  (EXPORT_FRAME_LIMIT < size (frameLookup st))%nat ->
  signal (S i) = false ->
  waited signal (S i) k sched (sleep acks st) ->
  waited signal i (S k) (acks :: sched) st.
Proof.
  intros Hsz Hsig Hw [|j] Hj.
  - rewrite Nat.add_0_r. split; [|done]. unfold inflight, afterSleeps.
    by rewrite take_0.
  - destruct (Hw j ltac:(lia)) as [H1 H2]. split.
    + unfold inflight in *. by rewrite afterSleeps_S.
    + by rewrite <- Nat.add_succ_comm.
Qed.

Lemma waited_inv signal i k acks sched st :
  waited signal i (S k) (acks :: sched) st ->
  (EXPORT_FRAME_LIMIT < size (frameLookup st))%nat /\
  signal (S i) = false /\
  waited signal (S i) k sched (sleep acks st).
Proof.
  intros Hw. destruct (Hw 0%nat ltac:(lia)) as [H1 H2].
  rewrite Nat.add_0_r in H2. split; [|split]; [ |done| ].
  - unfold inflight, afterSleeps in H1. by rewrite take_0 in H1.
  - intros j Hj. destruct (Hw (S j) ltac:(lia)) as [H3 H4]. split.
    + unfold inflight in *. by rewrite afterSleeps_S in H3.
    + by rewrite <- Nat.add_succ_comm in H4.
Qed.

(** The wait loop leaves as soon as the limit is no longer exceeded. *)
Lemma awaitRoom_room signal i k sched st :
  (k <= length sched)%nat ->
  waited signal i k sched st ->
  (inflight k sched st <= EXPORT_FRAME_LIMIT)%nat ->
  awaitRoom signal i sched st = (Room (i + k), afterSleeps k sched st).
Proof.
  revert i sched st; induction k as [|k IH]; intros i sched st Hk Hw Hroom.
  - unfold inflight, afterSleeps in *. rewrite take_0 in *. simpl in *.
    rewrite Nat.add_0_r.
    destruct sched; simpl;
      destruct (Nat.ltb_spec EXPORT_FRAME_LIMIT (size (frameLookup st)));
      done || lia.
  - destruct sched as [|acks sched]; simpl in Hk; [lia|].
    apply waited_inv in Hw as (Hsz & Hsig & Hw).
    simpl. destruct (Nat.ltb_spec EXPORT_FRAME_LIMIT (size (frameLookup st)));
      [|lia].
    rewrite Hsig. rewrite (IH (S i) sched (sleep acks st)).
    + by rewrite Nat.add_succ_comm.
    + lia.
    + exact Hw.
    + unfold inflight in *. by rewrite afterSleeps_S in Hroom.
Qed.

(** It returns as soon as the signal is found aborted after a sleep. *)
Lemma awaitRoom_cancelled signal i k sched st :
  (k < length sched)%nat ->
  waited signal i k sched st ->
  (EXPORT_FRAME_LIMIT < inflight k sched st)%nat ->
  signal (S (i + k)) = true ->
  awaitRoom signal i sched st
  = (Cancelled (S (i + k)), afterSleeps (S k) sched st).
Proof.
  revert i sched st; induction k as [|k IH]; intros i sched st Hk Hw Hsz Hsig.
  - destruct sched as [|acks sched]; simpl in Hk; [lia|].
    unfold inflight, afterSleeps in Hsz. rewrite take_0 in Hsz. simpl in Hsz.
    rewrite Nat.add_0_r in *. simpl.
    destruct (Nat.ltb_spec EXPORT_FRAME_LIMIT (size (frameLookup st))); [|lia].
    by rewrite Hsig.
  - destruct sched as [|acks sched]; simpl in Hk; [lia|].
    apply waited_inv in Hw as (Hsz0 & Hsig0 & Hw).
    simpl. destruct (Nat.ltb_spec EXPORT_FRAME_LIMIT (size (frameLookup st)));
      [|lia].
    rewrite Hsig0. rewrite (IH (S i) sched (sleep acks st)).
    + by rewrite Nat.add_succ_comm.
    + lia.
    + exact Hw.
    + unfold inflight in *. by rewrite afterSleeps_S in Hsz.
    + by rewrite Nat.add_succ_comm.
Qed.

(** Otherwise it keeps sleeping, for as long as the schedule goes. *)
Lemma awaitRoom_sleeping signal i sched st :
  waited signal i (length sched) sched st ->
  (EXPORT_FRAME_LIMIT < inflight (length sched) sched st)%nat ->
  awaitRoom signal i sched st
  = (Sleeping, afterSleeps (length sched) sched st).
Proof.
  revert i st; induction sched as [|acks sched IH]; intros i st Hw Hsz.
  - unfold inflight, afterSleeps in *. simpl in *.
    destruct (Nat.ltb_spec EXPORT_FRAME_LIMIT (size (frameLookup st)));
      done || lia.
  - simpl length in *. apply waited_inv in Hw as (Hsz0 & Hsig0 & Hw).
    simpl. destruct (Nat.ltb_spec EXPORT_FRAME_LIMIT (size (frameLookup st)));
      [|lia].
    rewrite Hsig0. apply IH; [done|].
    unfold inflight in *. by rewrite afterSleeps_S in Hsz.
Qed.

(** Every run of the wait loop is one of the three above. *)
Lemma awaitRoom_cases signal i sched st :
  (exists k, (k <= length sched)%nat /\ waited signal i k sched st /\
             (inflight k sched st <= EXPORT_FRAME_LIMIT)%nat /\
             awaitRoom signal i sched st
             = (Room (i + k), afterSleeps k sched st)) \/
  (exists k, (k < length sched)%nat /\ waited signal i k sched st /\
             (EXPORT_FRAME_LIMIT < inflight k sched st)%nat /\
             signal (S (i + k)) = true /\
             awaitRoom signal i sched st
             = (Cancelled (S (i + k)), afterSleeps (S k) sched st)) \/
  (waited signal i (length sched) sched st /\
   (EXPORT_FRAME_LIMIT < inflight (length sched) sched st)%nat /\
   awaitRoom signal i sched st
   = (Sleeping, afterSleeps (length sched) sched st)).
Proof.
  revert i st; induction sched as [|acks sched IH]; intros i st.
  - destruct (Nat.ltb_spec EXPORT_FRAME_LIMIT (size (frameLookup st))) as [H|H].
    + right; right.
      assert (Hw : waited signal i 0 [] st) by (intros j Hj; lia).
      assert (Hs : (EXPORT_FRAME_LIMIT < inflight (length (@nil (list Z))) [] st)%nat)
        by (unfold inflight, afterSleeps; simpl; done).
      split; [done|]. split; [done|]. by apply awaitRoom_sleeping.
    + left. exists 0%nat.
      assert (Hw : waited signal i 0 [] st) by (intros j Hj; lia).
      assert (Hs : (inflight 0 [] st <= EXPORT_FRAME_LIMIT)%nat)
        by (unfold inflight, afterSleeps; simpl; done).
      split; [simpl; lia|]. split; [done|]. split; [done|].
      by apply awaitRoom_room.
  - destruct (Nat.ltb_spec EXPORT_FRAME_LIMIT (size (frameLookup st))) as [H|H].
    + destruct (signal (S i)) eqn:Hsig.
      * right; left. exists 0%nat.
        assert (Hw : waited signal i 0 (acks :: sched) st) by (intros j Hj; lia).
        assert (Hs : (EXPORT_FRAME_LIMIT < inflight 0 (acks :: sched) st)%nat)
          by (unfold inflight, afterSleeps; rewrite take_0; done).
        rewrite Nat.add_0_r.
        split; [simpl; lia|]. split; [done|]. split; [done|]. split; [done|].
        rewrite <- (Nat.add_0_r i) at 2.
        apply awaitRoom_cancelled; try done; simpl; try lia.
        by rewrite Nat.add_0_r.
      * destruct (IH (S i) (sleep acks st))
          as [(k & Hk & Hw & Hr & _)|[(k & Hk & Hw & Hs & Hc & _)|(Hw & Hs & _)]].
        -- left. exists (S k).
           assert (Hw' := waited_S _ _ _ acks _ _ H Hsig Hw).
           assert (Hr' : (inflight (S k) (acks :: sched) st <= EXPORT_FRAME_LIMIT)%nat)
             by (unfold inflight in *; by rewrite afterSleeps_S).
           split; [simpl; lia|]. split; [done|]. split; [done|].
           apply awaitRoom_room; try done. simpl; lia.
        -- right; left. exists (S k).
           assert (Hw' := waited_S _ _ _ acks _ _ H Hsig Hw).
           assert (Hs' : (EXPORT_FRAME_LIMIT < inflight (S k) (acks :: sched) st)%nat)
             by (unfold inflight in *; by rewrite afterSleeps_S).
           assert (Hc' : signal (S (i + S k)) = true)
             by (by rewrite <- Nat.add_succ_comm).
           split; [simpl; lia|]. split; [done|]. split; [done|]. split; [done|].
           apply awaitRoom_cancelled; try done. simpl; lia.
        -- right; right.
           assert (Hw' := waited_S _ _ _ acks _ _ H Hsig Hw).
           assert (Hs' : (EXPORT_FRAME_LIMIT
                          < inflight (length (acks :: sched)) (acks :: sched) st)%nat)
             by (simpl length; unfold inflight in *; by rewrite afterSleeps_S).
           split; [done|]. split; [done|]. by apply awaitRoom_sleeping.
    + left. exists 0%nat.
      assert (Hw : waited signal i 0 (acks :: sched) st) by (intros j Hj; lia).
      assert (Hs : (inflight 0 (acks :: sched) st <= EXPORT_FRAME_LIMIT)%nat)
        by (unfold inflight, afterSleeps; rewrite take_0; done).
      split; [simpl; lia|]. split; [done|]. split; [done|].
      apply awaitRoom_room; try done. simpl; lia.
Qed.

End ExporterFacts.

Section ExporterClaims.

Import ImageExporter.

Implicit Types (st : Exporter) (sched : Schedule) (signal : AbortSignal).

Lemma onAcks_settings frames st :
  fileType (onAcks frames st) = fileType st
  /\ quality (onAcks frames st) = quality st.
Proof.
  revert st; induction frames as [|f frames IH]; intros st; simpl; [done|].
  destruct (IH (onAck f st)) as [-> ->]. unfold onAck.
  by destruct (hot st) eqn:Hhot.
Qed.

Lemma afterSleeps_settings k sched st :
  fileType (afterSleeps k sched st) = fileType st
  /\ quality (afterSleeps k sched st) = quality st.
Proof.
  revert sched st; induction k as [|k IH]; intros sched st.
  - unfold afterSleeps. by rewrite take_0.
  - destruct sched as [|acks sched]; [done|].
    rewrite afterSleeps_S. destruct (IH sched (sleep acks st)) as [-> ->].
    unfold sleep. by destruct (onAcks_settings acks
                                 (emit (Timeout EXPORT_RETRY_DELAY) st)) as [-> ->].
Qed.

Lemma handleFrame_fresh frame signal sched st :
  hot st = true -> frame ∉ frameLookup st ->
  handleFrame frame signal sched st
  = match awaitRoom signal 0 sched st with
    | (Sleeping, st') => (Blocked, st')
    | (Cancelled i, st') => (Aborting i, st')
    | (Room i, st') =>
        let st'' := withLookup ({[frame]} ∪ frameLookup st') st' in
        (Accepted i, emit (ToBlob frame (fileType st'') (quality st'')) st'')
    end.
Proof.
  intros Hhot Hfresh. unfold handleFrame.
  destruct (decide (frame ∈ frameLookup st)); [done|]. by rewrite Hhot.
Qed.

(** C6.  A call to [handleFrame] for a frame that is already in flight is
    rejected: the only thing it does is log the warning; the in-flight set
    is left as it was, nothing is slept on, converted or sent. *)
Theorem handleFrame_duplicate_rejected frame signal sched st :
  frame ∈ frameLookup st ->
  handleFrame frame signal sched st = (Rejected, emit (Warn frame) st)
  /\ frameLookup (snd (handleFrame frame signal sched st)) = frameLookup st
  /\ effects (snd (handleFrame frame signal sched st))
     = effects st ++ [Warn frame].
Proof.
  intros Hin. unfold handleFrame.
  destruct (decide (frame ∈ frameLookup st)); done.
Qed.

Lemma handleFrame_duplicate_rejected_witness :
  (2 : Z) ∈ frameLookup (inFlight 3 true)
  /\ handleFrame 2 (fun _ => false) [[0]] (inFlight 3 true)
     = (Rejected, emit (Warn 2) (inFlight 3 true)).
Proof.
  assert (H : (2 : Z) ∈ frameLookup (inFlight 3 true)) by (vm_compute; done).
  split; [exact H|].
  exact (proj1 (handleFrame_duplicate_rejected 2 (fun _ => false) [[0]]
                  (inFlight 3 true) H)).
Defined.

(** C5, as the code has it.  With [import.meta.hot] present and the frame
    not yet in flight, [handleFrame] sleeps [EXPORT_RETRY_DELAY] = 1000 ms
    at a time for as long as more than [EXPORT_FRAME_LIMIT] = 256 frames
    are in flight and the signal has not been aborted, however long that
    takes; the frame is accepted exactly when, after some number of sleeps,
    the in-flight count no longer exceeds the limit (it may equal it). *)
Theorem handleFrame_backpressure frame signal sched st :
  hot st = true -> frame ∉ frameLookup st ->
  (waited signal 0 (length sched) sched st ->
   (EXPORT_FRAME_LIMIT < inflight (length sched) sched st)%nat ->
   handleFrame frame signal sched st
   = (Blocked, afterSleeps (length sched) sched st)
   /\ effects (afterSleeps (length sched) sched st)
      = effects st ++ repeat (Timeout 1000) (length sched)
   /\ frame ∉ frameLookup (afterSleeps (length sched) sched st))
  /\ (forall k, (k <= length sched)%nat ->
      waited signal 0 k sched st ->
      (inflight k sched st <= 256)%nat ->
      exists st',
        handleFrame frame signal sched st = (Accepted k, st')
        /\ frameLookup st' = {[frame]} ∪ frameLookup (afterSleeps k sched st)
        /\ effects st'
           = effects st ++ repeat (Timeout 1000) k
               ++ [ToBlob frame (fileType st) (quality st)])
  /\ (forall k st',
      handleFrame frame signal sched st = (Accepted k, st') ->
      waited signal 0 k sched st /\ (inflight k sched st <= 256)%nat).
Proof.
  intros Hhot Hfresh. split; [|split].
  - intros Hw Hsz. rewrite handleFrame_fresh by done.
    rewrite awaitRoom_sleeping by done. split; [done|]. split.
    + by rewrite afterSleeps_effects.
    + intros Hin. apply Hfresh.
      by apply (afterSleeps_lookup (length sched) sched st frame).
  - intros k Hk Hw Hroom. rewrite handleFrame_fresh by done.
    rewrite (awaitRoom_room signal 0 k) by done. simpl.
    eexists; split; [reflexivity|]. simpl. split; [done|].
    destruct (afterSleeps_settings k sched st) as [-> ->].
    rewrite afterSleeps_effects by done. by rewrite <- app_assoc.
  - intros k st'. rewrite handleFrame_fresh by done.
    destruct (awaitRoom_cases signal 0 sched st)
      as [(k0 & Hk & Hw & Hr & ->)|[(k0 & Hk & Hw & Hs & Hc & ->)|(Hw & Hs & ->)]];
      simpl; intros Heq; [|discriminate|discriminate].
    injection Heq as -> _. done.
Qed.

Lemma handleFrame_backpressure_witness :
  let sched : Schedule := [[0]; [1]; [2]] in
  hot (inFlight 258 true) = true
  /\ ((300 : Z) ∉ frameLookup (inFlight 258 true))
  /\ handleFrame 300 (fun _ => false) [[0]; []] (inFlight 258 true)
     = (Blocked, afterSleeps 2 [[0]; []] (inFlight 258 true))
  /\ (exists st',
       handleFrame 300 (fun _ => false) sched (inFlight 258 true)
       = (Accepted 2, st')
       /\ (inflight 2 sched (inFlight 258 true) <= 256)%nat).
Proof.
  intros sched.
  assert (Hhot : hot (inFlight 258 true) = true) by reflexivity.
  assert (Hfresh : (300 : Z) ∉ frameLookup (inFlight 258 true))
    by (vm_compute; intros H; discriminate H).
  split; [exact Hhot|]. split; [exact Hfresh|]. split.
  - refine (proj1 (proj1 (handleFrame_backpressure 300 (fun _ => false)
                            [[0]; []] (inFlight 258 true) Hhot Hfresh) _ _)).
    + intros j Hj. split; [|reflexivity].
      destruct j as [|[|j]]; [vm_compute; lia|vm_compute; lia|simpl in Hj; lia].
    + vm_compute. lia.
  - destruct (handleFrame_backpressure 300 (fun _ => false)
                sched (inFlight 258 true) Hhot Hfresh)
      as (_ & Haccept & Honly).
    destruct (Haccept 2%nat) as (st' & Heq & _).
    + simpl; lia.
    + intros j Hj. split; [|reflexivity].
      destruct j as [|[|j]]; [vm_compute; lia|vm_compute; lia|lia].
    + vm_compute. lia.
    + exists st'. split; [exact Heq|]. exact (proj2 (Honly 2%nat st' Heq)).
Defined.

(** C5 as stated fails at the limit itself: with exactly 256 frames in
    flight a new frame is accepted at once, although the in-flight count is
    not below 256, and 257 frames are then in flight.  It also fails for a
    frame that is already in flight: with 257 frames in flight such a call
    does not wait, it is rejected at once. *)
Lemma handleFrame_accepts_at_the_limit :
  size (frameLookup (inFlight 256 true)) = 256%nat
  /\ ¬ (size (frameLookup (inFlight 256 true)) < EXPORT_FRAME_LIMIT)%nat
  /\ fst (handleFrame 256 (fun _ => false) [] (inFlight 256 true))
     = Accepted 0
  /\ size (frameLookup
             (snd (handleFrame 256 (fun _ => false) [] (inFlight 256 true))))
     = 257%nat
  /\ (EXPORT_FRAME_LIMIT < size (frameLookup (inFlight 257 true)))%nat
  /\ effects (snd (handleFrame 5 (fun _ => false) [[]; []] (inFlight 257 true)))
     = [Warn 5].
Proof.
  split; [by vm_compute|]. split; [vm_compute; lia|].
  split; [by vm_compute|]. split; [by vm_compute|].
  split; [vm_compute; lia|]. by vm_compute.
Qed.

(** Without [import.meta.hot] nothing is ever put in flight. *)
Lemma handleFrame_inactive frame signal sched st :
  hot st = false -> frame ∉ frameLookup st ->
  handleFrame frame signal sched st = (Inactive, st).
Proof.
  intros Hhot Hfresh. unfold handleFrame.
  destruct (decide (frame ∈ frameLookup st)); [done|]. by rewrite Hhot.
Qed.

(** C7, as the code has it.  [handleFrame] reads [signal.aborted] after
    each asynchronous hand-off -- after each backpressure sleep, after the
    blob has been created and after it has been encoded as a data URL --
    and returns normally, logging no error, when it finds the signal
    aborted; its value on entry, before the first hand-off, is never
    read. *)
Theorem handleFrame_cancellation frame signal sched reader st :
  (hot st = true -> frame ∉ frameLookup st ->
   forall k, (k < length sched)%nat ->
     waited signal 0 k sched st ->
     (EXPORT_FRAME_LIMIT < inflight k sched st)%nat ->
     signal (S k) = true ->
     handleFrame frame signal sched st
     = (Aborting (S k), afterSleeps (S k) sched st)
     /\ (frame ∉ frameLookup (afterSleeps (S k) sched st))
     /\ effects (afterSleeps (S k) sched st)
        = effects st ++ repeat (Timeout EXPORT_RETRY_DELAY) (S k))
  /\ (forall i blob, signal (S i) = true ->
      exportTask (Some blob) reader frame signal i st = st)
  /\ (forall i blob data,
      signal (S i) = false -> reader blob = Some data ->
      signal (S (S i)) = true ->
      exportTask (Some blob) reader frame signal i st
      = emit (ReadAsDataURL frame blob) st)
  /\ (forall i blob data,
      signal (S i) = false -> reader blob = Some data ->
      signal (S (S i)) = false ->
      effects (exportTask (Some blob) reader frame signal i st)
      = effects st ++ [ReadAsDataURL frame blob;
                       Send {| msg_frame := frame; msg_isStill := false;
                               msg_data := data; msg_mimeType := fileType st;
                               msg_project := name st |}])
  /\ (forall signal', (forall i, signal' (S i) = signal (S i)) ->
      handleFrame frame signal' sched st = handleFrame frame signal sched st).
Proof.
  split; [|split; [|split; [|split]]].
  - intros Hhot Hfresh k Hk Hw Hsz Hsig. rewrite handleFrame_fresh by done.
    rewrite (awaitRoom_cancelled signal 0 k) by done. split; [done|]. split.
    + intros Hin. apply Hfresh.
      by apply (afterSleeps_lookup (S k) sched st frame).
    + by rewrite afterSleeps_effects by lia.
  - intros i blob Hsig. unfold exportTask. by rewrite Hsig.
  - intros i blob data H1 Hr H2. unfold exportTask. by rewrite H1, Hr, H2.
  - intros i blob data H1 Hr H2. unfold exportTask. rewrite H1, Hr, H2.
    simpl. by rewrite <- app_assoc.
  - intros signal' Hext. unfold handleFrame.
    destruct (decide (frame ∈ frameLookup st)); [done|].
    destruct (hot st); [|done].
    assert (Heq : forall sch i s,
               awaitRoom signal' i sch s = awaitRoom signal i sch s).
    { induction sch as [|acks sch IH]; intros i s; simpl; [done|].
      by rewrite Hext, IH. }
    by rewrite Heq.
Qed.

Lemma handleFrame_cancellation_witness :
  let signal : AbortSignal := fun i => (2 <=? i)%nat in
  let late : AbortSignal := fun i => (3 <=? i)%nat in
  let reader : Blob -> option string := fun _ => Some "data:image/png" in
  hot (inFlight 258 true) = true
  /\ ((300 : Z) ∉ frameLookup (inFlight 258 true))
  /\ handleFrame 300 signal [[]; []; []] (inFlight 258 true)
     = (Aborting 2, afterSleeps 2 [[]; []; []] (inFlight 258 true))
  /\ exportTask (Some "png") reader 300 signal 1 (inFlight 258 true)
     = inFlight 258 true
  /\ exportTask (Some "png") reader 300 late 1 (inFlight 258 true)
     = emit (ReadAsDataURL 300 "png") (inFlight 258 true)
  /\ effects (exportTask (Some "png") reader 300 late 0 (inFlight 258 true))
     = [ReadAsDataURL 300 "png";
        Send {| msg_frame := 300; msg_isStill := false;
                msg_data := "data:image/png"; msg_mimeType := "image/png";
                msg_project := "unknown" |}]
  /\ handleFrame 300 (fun _ => true) [[]; []; []] (inFlight 258 true)
     = handleFrame 300 (fun i => (1 <=? i)%nat) [[]; []; []] (inFlight 258 true).
Proof.
  intros signal late reader.
  assert (Hhot : hot (inFlight 258 true) = true) by reflexivity.
  assert (Hfresh : (300 : Z) ∉ frameLookup (inFlight 258 true))
    by (vm_compute; intros H; discriminate H).
  pose proof (handleFrame_cancellation 300 signal [[]; []; []] reader
                (inFlight 258 true)) as (Hwait & Hblob & _).
  pose proof (handleFrame_cancellation 300 late [[]; []; []] reader
                (inFlight 258 true)) as (_ & _ & Hdata & Hsend & _).
  pose proof (handleFrame_cancellation 300 (fun i => (1 <=? i)%nat)
                [[]; []; []] reader (inFlight 258 true))
    as (_ & _ & _ & _ & Hentry).
  split; [exact Hhot|]. split; [exact Hfresh|].
  split; [|split; [|split; [|split]]].
  - refine (proj1 (Hwait Hhot Hfresh 1%nat _ _ _ _)).
    + simpl; lia.
    + intros j Hj. destruct j as [|j]; [|lia]. split; [vm_compute; lia|done].
    + vm_compute; lia.
    + reflexivity.
  - apply Hblob. reflexivity.
  - apply (Hdata 1%nat "png" "data:image/png"); reflexivity.
  - apply (Hsend 0%nat "png" "data:image/png"); reflexivity.
  - apply Hentry. intros i. reflexivity.
Defined.

(** C7 as stated fails on entry: the signal is not read before the first
    hand-off, so a call made with an already aborted signal and room in
    the in-flight set still adds the frame and starts the blob creation. *)
Lemma handleFrame_aborted_on_entry_still_starts :
  let signal : AbortSignal := fun _ => true in
  signal 0%nat = true
  /\ fst (handleFrame 7 signal [] (create true)) = Accepted 0
  /\ frameLookup (snd (handleFrame 7 signal [] (create true))) = {[ 7 ]}
  /\ effects (snd (handleFrame 7 signal [] (create true)))
     = [ToBlob 7 "image/png" 1].
Proof.
  intros signal. split; [done|]. split; [by vm_compute|].
  split; [|by vm_compute].
  unfold handleFrame. simpl. apply leibniz_equiv.
  destruct (decide (7 ∈ frameLookup (create true))) as [Hin|_].
  - exfalso. revert Hin. simpl. apply not_elem_of_empty.
  - simpl. set_solver.
Qed.

Lemma polled_inv k acks sched st :
  polled (S k) (acks :: sched) st ->
  (0 < size (frameLookup st))%nat /\ polled k sched (sleep acks st).
Proof.
  intros Hp. split.
  - specialize (Hp 0%nat ltac:(lia)). unfold inflight, afterSleeps in Hp.
    by rewrite take_0 in Hp.
  - intros j Hj. specialize (Hp (S j) ltac:(lia)). unfold inflight in *.
    by rewrite afterSleeps_S in Hp.
Qed.

Lemma polled_S k acks sched st :
  (0 < size (frameLookup st))%nat -> polled k sched (sleep acks st) ->
  polled (S k) (acks :: sched) st.
Proof.
  intros Hsz Hp [|j] Hj.
  - unfold inflight, afterSleeps. by rewrite take_0.
  - specialize (Hp j ltac:(lia)). unfold inflight in *.
    by rewrite afterSleeps_S.
Qed.

Lemma drain_returned polls k sched st :
  (k <= length sched)%nat -> polled k sched st ->
  inflight k sched st = 0%nat ->
  drain polls sched st = (Returned (polls + k), afterSleeps k sched st).
Proof.
  revert polls sched st; induction k as [|k IH]; intros polls sched st Hk Hp Hz.
  - unfold inflight, afterSleeps in *. rewrite take_0 in *. simpl in *.
    rewrite Nat.add_0_r. destruct sched; simpl; by rewrite Hz.
  - destruct sched as [|acks sched]; simpl in Hk; [lia|].
    apply polled_inv in Hp as [Hsz Hp]. simpl.
    destruct (Nat.ltb_spec 0 (size (frameLookup st))); [|lia].
    rewrite (IH (S polls) sched (sleep acks st)).
    + by rewrite Nat.add_succ_comm.
    + lia.
    + exact Hp.
    + unfold inflight in *. by rewrite afterSleeps_S in Hz.
Qed.

Lemma drain_draining polls sched st :
  polled (S (length sched)) sched st ->
  drain polls sched st = (Draining, afterSleeps (length sched) sched st).
Proof.
  revert polls st; induction sched as [|acks sched IH]; intros polls st Hp.
  - specialize (Hp 0%nat ltac:(lia)). unfold inflight, afterSleeps in *.
    simpl in *. by destruct (Nat.ltb_spec 0 (size (frameLookup st))); [|lia].
  - simpl length in Hp. apply polled_inv in Hp as [Hsz Hp]. simpl.
    destruct (Nat.ltb_spec 0 (size (frameLookup st))); [|lia].
    by apply IH.
Qed.

Lemma drain_cases polls sched st :
  (exists k, (k <= length sched)%nat /\ polled k sched st
             /\ inflight k sched st = 0%nat
             /\ drain polls sched st
                = (Returned (polls + k), afterSleeps k sched st))
  \/ (polled (S (length sched)) sched st
      /\ drain polls sched st
         = (Draining, afterSleeps (length sched) sched st)).
Proof.
  revert polls st; induction sched as [|acks sched IH]; intros polls st.
  - destruct (Nat.ltb_spec 0 (size (frameLookup st))) as [H|H].
    + right. assert (Hp : polled (S (length (@nil (list Z)))) [] st).
      { intros j Hj. unfold inflight, afterSleeps. by rewrite take_nil. }
      split; [done|]. by apply drain_draining.
    + left. exists 0%nat.
      assert (Hp : polled 0 [] st) by (intros j Hj; lia).
      assert (Hz : inflight 0 [] st = 0%nat)
        by (unfold inflight, afterSleeps; simpl; lia).
      split; [simpl; lia|]. split; [done|]. split; [done|].
      by apply drain_returned.
  - destruct (Nat.ltb_spec 0 (size (frameLookup st))) as [H|H].
    + destruct (IH (S polls) (sleep acks st)) as [(k & Hk & Hp & Hz & _)|(Hp & _)].
      * left. exists (S k).
        assert (Hp' := polled_S _ acks _ _ H Hp).
        assert (Hz' : inflight (S k) (acks :: sched) st = 0%nat)
          by (unfold inflight in *; by rewrite afterSleeps_S).
        split; [simpl; lia|]. split; [done|]. split; [done|].
        apply drain_returned; try done. simpl; lia.
      * right. assert (Hp' := polled_S _ acks _ _ H Hp).
        split; [done|]. by apply drain_draining.
    + left. exists 0%nat.
      assert (Hp : polled 0 (acks :: sched) st) by (intros j Hj; lia).
      assert (Hz : inflight 0 (acks :: sched) st = 0%nat)
        by (unfold inflight, afterSleeps; rewrite take_0; simpl; lia).
      split; [simpl; lia|]. split; [done|]. split; [done|].
      apply drain_returned; try done. simpl; lia.
Qed.

(** C8.  [stop] with [Success] sleeps [EXPORT_RETRY_DELAY] at a time until
    no frame is in flight, and returns only then: it returns after [k]
    sleeps exactly when [k] is the first moment at which every frame has
    been acknowledged, and it is still waiting as long as a frame remains.
    With any other result it returns at once.  Whenever [stop] returns,
    the in-flight set is empty. *)
Theorem stop_drains result sched st :
  let st0 := emit (ConsoleLog result) st in
  (forall k st', stop result sched st = (Returned k, st') ->
     frameLookup st' = ∅)
  /\ (result <> Success ->
      stop result sched st = (Returned 0, withLookup ∅ st0))
  /\ (result = Success ->
      (forall k, (k <= length sched)%nat -> polled k sched st0 ->
         inflight k sched st0 = 0%nat ->
         stop result sched st
         = (Returned k, withLookup ∅ (afterSleeps k sched st0))
         /\ effects (afterSleeps k sched st0)
            = effects st0 ++ repeat (Timeout EXPORT_RETRY_DELAY) k)
      /\ (forall k st', stop result sched st = (Returned k, st') ->
            (k <= length sched)%nat /\ polled k sched st0
            /\ frameLookup (afterSleeps k sched st0) = ∅)
      /\ (polled (S (length sched)) sched st0 ->
            fst (stop result sched st) = Draining)).
Proof.
  intros st0. split; [|split].
  - intros k st'. unfold stop. fold st0. destruct (isSuccess result).
    + destruct (drain 0 sched st0) as [[k0|] s]; intros Heq; [|discriminate].
      by injection Heq as _ <-.
    + intros Heq. by injection Heq as _ <-.
  - intros Hne. unfold stop. by destruct result.
  - intros ->. unfold stop. fold st0. simpl isSuccess. cbv iota.
    split; [|split].
    + intros k Hk Hp Hz. rewrite (drain_returned 0 k) by done. simpl.
      split; [done|]. by apply afterSleeps_effects.
    + intros k st'.
      destruct (drain_cases 0 sched st0) as [(k0 & Hk & Hp & Hz & ->)|(Hp & ->)];
        simpl; intros Heq; [|discriminate].
      injection Heq as -> _. split; [done|]. split; [done|].
      apply leibniz_equiv. by apply size_empty_iff.
    + intros Hp. by rewrite drain_draining.
Qed.

Lemma stop_drains_witness :
  ImageExporter.Aborted <> Success
  /\ fst (stop ImageExporter.Aborted [] (inFlight 3 true)) = Returned 0
  /\ frameLookup (snd (stop ImageExporter.Aborted [] (inFlight 3 true))) = ∅
  /\ fst (stop Success [[0; 1]; [2]; []] (inFlight 3 true)) = Returned 2
  /\ frameLookup (snd (stop Success [[0; 1]; [2]; []] (inFlight 3 true))) = ∅
  /\ fst (stop Success [[0; 1]; []; []] (inFlight 3 true)) = Draining.
Proof.
  assert (Hne : ImageExporter.Aborted <> Success) by discriminate.
  pose proof (stop_drains ImageExporter.Aborted [] (inFlight 3 true))
    as (_ & Hother & _).
  pose proof (stop_drains Success [[0; 1]; [2]; []] (inFlight 3 true))
    as (Hempty & _ & Hsuccess).
  destruct (Hsuccess eq_refl) as (Hdrained & _ & _).
  pose proof (stop_drains Success [[0; 1]; []; []] (inFlight 3 true))
    as (_ & _ & Hstuck).
  destruct (Hstuck eq_refl) as (_ & _ & Hdraining).
  assert (Hret : stop Success [[0; 1]; [2]; []] (inFlight 3 true)
                 = (Returned 2,
                    withLookup ∅
                      (afterSleeps 2 [[0; 1]; [2]; []]
                         (emit (ConsoleLog Success) (inFlight 3 true))))).
  { refine (proj1 (Hdrained 2%nat _ _ _)).
    - simpl; lia.
    - intros j Hj. destruct j as [|[|j]]; [vm_compute; lia|vm_compute; lia|lia].
    - by vm_compute. }
  split; [exact Hne|]. split; [|split; [|split; [|split]]].
  - by rewrite (Hother Hne).
  - by rewrite (Hother Hne).
  - by rewrite Hret.
  - exact (Hempty _ _ Hret).
  - apply Hdraining. intros j Hj.
    destruct j as [|[|[|[|j]]]]; [vm_compute; lia..|simpl in Hj; lia].
Defined.

End ExporterClaims.

(* ===================================================================== *)
(** * Properties of the text wrapping *)
(* ===================================================================== *)

Section TxtLeafClaims.

Import TxtLeaf.

Lemma inStep_step width lineHeight s w textNode :
  inStep lineHeight s w ->
  inStep lineHeight (drawStep width lineHeight s textNode)
                    (wrapStep width w textNode).
Proof.
  intros (Hx & Hw & Hy). unfold drawStep, wrapStep. rewrite Hx, Hw.
  destruct (gt (wx w + wwidth w + measure_width textNode) width);
    destruct (isSpace (content textNode)); simpl;
    (split; [|split]); simpl; try (by rewrite ?Hx, ?Hw); try exact Hy;
    rewrite Hy; replace (lines w + 1 - 1)%Z with ((lines w - 1) + 1)%Z by lia;
    rewrite inject_Z_plus; ring.
Qed.

Lemma inStep_loop width lineHeight textNodes s w :
  inStep lineHeight s w ->
  inStep lineHeight (fold_left (drawStep width lineHeight) textNodes s)
                    (fold_left (wrapStep width) textNodes w).
Proof.
  revert s w; induction textNodes as [|textNode textNodes IH]; intros s w H;
    simpl; [done|].
  apply IH. by apply inStep_step.
Qed.

(** The vertical offset at which [draw] ends is one line height for each
    line that [desiredLines] counts beyond the first. *)
Lemma draw_offset textNodes width height lineHeight :
  (BBox.y (lineRect (draw textNodes width height lineHeight))
   == inject_Z (desiredLines textNodes width - 1) * lineHeight)%Q.
Proof.
  unfold draw, desiredLines.
  match goal with
  | |- context [fold_left (drawStep ?w ?lh) ?l ?s0] =>
      pose proof (inStep_loop w lh l s0 {| wx := 0; wwidth := 0; lines := 1 |})
        as H
  end.
  destruct H as (_ & _ & Hy).
  { repeat split; simpl; reflexivity. }
  match goal with
  | |- context [if ?b then _ else _] => destruct b
  end; exact Hy.
Qed.

(** C10.  For every list of measured text nodes and every width, the
    number of lines on which the wrapping loop of [draw] ends equals the
    number of lines that [desiredLines] reports for the same width: the
    two loops break at the same nodes. *)
Theorem draw_lines_eq_desiredLines textNodes width height lineHeight :
  ¬ (lineHeight == 0)%Q ->
  (drawnLines textNodes width height lineHeight
   == inject_Z (desiredLines textNodes width))%Q.
Proof.
  intros Hlh. unfold drawnLines. rewrite draw_offset.
  replace (desiredLines textNodes width)
    with ((desiredLines textNodes width - 1) + 1)%Z at 2 by lia.
  rewrite inject_Z_plus. field. exact Hlh.
Qed.

Lemma draw_lines_eq_desiredLines_witness :
  ¬ (24 == 0)%Q
  /\ (drawnLines sampleText 30 48 24 == inject_Z (desiredLines sampleText 30))%Q
  /\ desiredLines sampleText 30 = 3.
Proof.
  assert (H : ¬ (24 == 0)%Q) by (intros H; discriminate H).
  split; [exact H|]. split; [|reflexivity].
  exact (draw_lines_eq_desiredLines sampleText 30 48 24 H).
Defined.

End TxtLeafClaims.

(* ===================================================================== *)
(** * Properties of the layout *)
(* ===================================================================== *)

Section LayoutFacts.

Import Layout.

Implicit Types (n : t) (ops : list Op) (script : Script).

Lemma run_app ops1 ops2 n : run (ops1 ++ ops2) n = run ops2 (run ops1 n).
Proof. unfold run. apply fold_left_app. Qed.

Lemma delta_nil : delta [] = 0.
Proof. reflexivity. Qed.

Lemma delta_cons op ops :
  delta (op :: ops)
  = (if isLock op then 1 else 0) - (if isRelease op then 1 else 0) + delta ops.
Proof.
  unfold delta, locks, releases. simpl.
  destruct (isLock op), (isRelease op); simpl length; lia.
Qed.

Lemma delta_app ops1 ops2 : delta (ops1 ++ ops2) = delta ops1 + delta ops2.
Proof.
  induction ops1 as [|op ops1 IH]; simpl.
  - rewrite delta_nil. lia.
  - rewrite !delta_cons, IH. lia.
Qed.

Lemma counter_exec op n :
  sizeLockCounter (self (exec op n)) = sizeLockCounter (self n) + delta [op].
Proof. destruct op; unfold delta, locks, releases; simpl; lia. Qed.

(** A sequence of writes moves the counter by its locks minus its
    releases, whatever else it writes. *)
Lemma counter_run ops n :
  sizeLockCounter (self (run ops n)) = sizeLockCounter (self n) + delta ops.
Proof.
  revert n; induction ops as [|op ops IH]; intros n.
  - simpl. rewrite delta_nil. lia.
  - change (run (op :: ops) n) with (run ops (exec op n)).
    rewrite IH, counter_exec, (delta_cons op ops), (delta_cons op []), delta_nil.
    lia.
Qed.

Lemma factors_exec op n :
  grow (self (exec op n)) = grow (self n)
  /\ shrink (self (exec op n)) = shrink (self n).
Proof. by destruct op. Qed.

Lemma factors_run ops n :
  grow (self (run ops n)) = grow (self n)
  /\ shrink (self (run ops n)) = shrink (self n).
Proof.
  revert n; induction ops as [|op ops IH]; intros n; [done|].
  change (run (op :: ops) n) with (run ops (exec op n)).
  destruct (IH (exec op n)) as [-> ->]. apply factors_exec.
Qed.

Lemma applyFlex_locked n :
  0 < sizeLockCounter (self n) ->
  yFlexGrow (applyFlex n) = 0%Q /\ yFlexShrink (applyFlex n) = 0%Q.
Proof.
  intros H. unfold applyFlex. simpl.
  by destruct (Z.ltb_spec 0 (sizeLockCounter (self n))); [|lia].
Qed.

Lemma applyFlex_free n :
  sizeLockCounter (self n) <= 0 ->
  yFlexGrow (applyFlex n) = grow (self n)
  /\ yFlexShrink (applyFlex n) = shrink (self n).
Proof.
  intros H. unfold applyFlex. simpl.
  by destruct (Z.ltb_spec 0 (sizeLockCounter (self n))); [lia|].
Qed.

(** C3.  While [sizeLockCounter] is greater than zero, [applyFlex] gives
    Yoga a grow and a shrink factor of 0 next to the size that was written,
    so the size is not derived from the surroundings; with the counter at
    zero it passes on the declared factors.  Starting from an unlocked
    node, the declared factors are back once every lock has been released,
    and not while one is still held. *)
Theorem applyFlex_size_lock n :
  (0 < sizeLockCounter (self n) ->
     yFlexGrow (applyFlex n) = 0%Q /\ yFlexShrink (applyFlex n) = 0%Q
     /\ yWidth (applyFlex n) = fst (desiredSize (self n))
     /\ yHeight (applyFlex n) = snd (desiredSize (self n)))
  /\ (sizeLockCounter (self n) = 0 ->
     yFlexGrow (applyFlex n) = grow (self n)
     /\ yFlexShrink (applyFlex n) = shrink (self n))
  /\ (sizeLockCounter (self n) = 0 -> forall ops,
     ((releases ops < locks ops)%nat ->
        yFlexGrow (applyFlex (run ops n)) = 0%Q
        /\ yFlexShrink (applyFlex (run ops n)) = 0%Q)
     /\ ((releases ops = locks ops)%nat ->
        yFlexGrow (applyFlex (run ops n)) = grow (self n)
        /\ yFlexShrink (applyFlex (run ops n)) = shrink (self n))).
Proof.
  split; [|split].
  - intros H. destruct (applyFlex_locked n H) as [-> ->]. done.
  - intros H. apply applyFlex_free. lia.
  - intros H ops. split; intros Hc.
    + apply applyFlex_locked. rewrite counter_run, H. unfold delta. lia.
    + destruct (factors_run ops n) as [<- <-]. apply applyFlex_free.
      rewrite counter_run, H. unfold delta. lia.
Qed.

Lemma applyFlex_size_lock_witness :
  let n := alone (withGrow 1 initialProps) in
  let locked := run [LockSize; LockSize; ReleaseSize] n in
  sizeLockCounter (self n) = 0
  /\ 0 < sizeLockCounter (self locked)
  /\ yFlexGrow (applyFlex locked) = 0%Q
  /\ yFlexShrink (applyFlex locked) = 0%Q
  /\ yFlexGrow (applyFlex n) = 1%Q
  /\ yFlexGrow (applyFlex (run [LockSize; LockSize; ReleaseSize] n)) = 0%Q
  /\ yFlexGrow (applyFlex (run [LockSize; LockSize; ReleaseSize; ReleaseSize] n))
     = 1%Q.
Proof.
  intros n locked.
  assert (H : sizeLockCounter (self n) = 0) by reflexivity.
  assert (Hlocked : 0 < sizeLockCounter (self locked)) by reflexivity.
  pose proof (proj1 (applyFlex_size_lock locked) Hlocked) as (Hg & Hs & _).
  pose proof (proj1 (proj2 (applyFlex_size_lock n)) H) as (Hfree & _).
  pose proof (proj2 (proj2 (applyFlex_size_lock n)) H) as Hops.
  split; [exact H|]. split; [exact Hlocked|]. split; [exact Hg|].
  split; [exact Hs|]. split; [exact Hfree|]. split.
  - apply (proj1 (Hops [LockSize; LockSize; ReleaseSize])).
    unfold releases, locks. simpl. lia.
  - apply (proj2 (Hops [LockSize; LockSize; ReleaseSize; ReleaseSize])).
    reflexivity.
Defined.

(** ** Layout update requests *)


Section Cells.

Variable overridesCached : bool.
Implicit Types (st : Cells) (below nodes : list Props).

Lemma cached_store m d v st : cached m d (store m d v st) = Some v.
Proof.
  unfold cached, store. simpl. rewrite decide_True by done.
  apply lookup_insert_eq.
Qed.

Lemma cached_store_ne m d v m' d' st :
  m' <> m \/ d' <> d -> cached m' d' (store m d v st) = cached m' d' st.
Proof.
  intros H. unfold cached, store. simpl.
  destruct (decide (m' = m)) as [->|Hm]; [|done].
  destruct H as [H|H]; [done|]. by rewrite lookup_insert_ne.
Qed.

Lemma cell_store_ne m d v m' st : m' <> m -> cell (store m d v st) m' = cell st m'.
Proof. intros H. unfold store. simpl. by rewrite decide_False. Qed.



Lemma since_app st st' new : trace st' = trace st ++ new -> since st st' = new.
Proof. intros H. unfold since. rewrite H. by rewrite drop_app_length. Qed.



Lemma consistent_store chain m d v st :
  m <> OfAppendedToView -> consistent chain st -> consistent chain (store m d v st).
Proof.
  intros Hm H k w Hk. rewrite cached_store_ne in Hk by (left; congruence).
  by apply H.
Qed.







Lemma consistent_call chain c st :
  consistent chain st -> consistent chain (call c st).
Proof. intros H k v Hk. by apply H. Qed.

Lemma drop_below chain below nodes :
  rev below ++ nodes = chain -> drop (length below) chain = nodes.
Proof.
  intros <-. rewrite <- (length_rev below). apply drop_app_length.
Qed.

Lemma chain_up below p parents :
  rev (p :: below) ++ parents = rev below ++ p :: parents.
Proof. simpl. by rewrite <- app_assoc. Qed.

Lemma appendedToView_spec chain below nodes st :
  rev below ++ nodes = chain -> consistent chain st ->
  exists v st1,
    appendedToView below nodes st = Some (v, st1)
    /\ truthy v = isLayoutRoot nodes
    /\ consistent chain st1
    /\ (forall m, m <> OfAppendedToView -> cell st1 m = cell st m)
    /\ (forall k, k <> length below ->
          cached OfAppendedToView k st1 = cached OfAppendedToView k st)
    /\ exists new,
         trace st1 = trace st ++ new
         /\ (new = []
             \/ (new = [Detach (length below)] /\ isLayoutRoot nodes = true
                 /\ cached OfAppendedToView (length below) st = None)).
Proof.
  intros Hchain Hcons. unfold appendedToView, computed.
  destruct (cached OfAppendedToView (length below) st) as [v|] eqn:Hc.
  - exists v, st. split; [done|]. split.
    + rewrite (Hcons _ _ Hc). by rewrite (drop_below _ _ _ Hchain).
    + split; [done|]. split; [done|]. split; [done|].
      exists []. split; [by rewrite app_nil_r|by left].
  - eexists _, _. split; [reflexivity|]. split; [done|]. split.
    + intros k v Hk.
      destruct (decide (k = length below)) as [->|Hne].
      * rewrite cached_store in Hk. injection Hk as <-. simpl.
        by rewrite (drop_below _ _ _ Hchain).
      * rewrite cached_store_ne in Hk by (by right).
        destruct (isLayoutRoot nodes); by apply Hcons.
    + split.
      { intros m Hm. rewrite cell_store_ne by done.
        by destruct (isLayoutRoot nodes). }
      split.
      { intros k Hk. rewrite cached_store_ne by (by right).
        by destruct (isLayoutRoot nodes). }
      destruct (isLayoutRoot nodes) eqn:Hroot.
      * exists [Detach (length below)]. split; [done|]. by right.
      * exists []. split; [by rewrite app_nil_r|by left].
Qed.










Lemma computed_clean m d derive st v st' :
  computed m d derive st = Some (v, st') -> cached m d st' = Some v.
Proof.
  unfold computed. destruct (cached m d st) as [w|] eqn:Hc.
  - by intros [= <- <-].
  - destruct (derive st) as [[w st1]|]; [|done]. intros [= <- <-].
    apply cached_store.
Qed.

Lemma computed_again m d derive st v st' :
  computed m d derive st = Some (v, st') ->
  computed m d derive st' = Some (v, st').
Proof.
  intros H. apply computed_clean in H. unfold computed. by rewrite H.
Qed.

Lemma applyFont_cases d st :
  (cached OfApplyFont d st = None
   /\ applyFont d st
      = Some (Void, store OfApplyFont d Void (call (ApplyFont d) st)))
  \/ (exists v, cached OfApplyFont d st = Some v
                /\ applyFont d st = Some (v, st)).
Proof.
  unfold applyFont, computed.
  destruct (cached OfApplyFont d st) as [v|]; [right; by exists v|by left].
Qed.

Lemma fontReach_seq d p parents :
  isView2D p = false ->
  map ApplyFont (rev (seq d (fontReach (p :: parents))))
  = map ApplyFont (rev (seq (S d) (fontReach parents))) ++ [ApplyFont d].
Proof. intros Hv. simpl. rewrite Hv. simpl. by rewrite map_app. Qed.

Lemma requestFontUpdate_spec chain nodes :
  forall below st,
    rev below ++ nodes = chain -> consistent chain st ->
    exists v st' new,
      requestFontUpdate overridesCached below nodes st = Some (v, st')
      /\ trace st' = trace st ++ new
      /\ sublist (List.filter isApplyFont new)
                 (map ApplyFont (rev (seq (length below) (fontReach nodes))))
      /\ ((forall k, (length below <= k)%nat ->
             cached OfRequestFontUpdate k st = None
             /\ cached OfApplyFont k st = None) ->
          List.filter isApplyFont new
          = map ApplyFont (rev (seq (length below) (fontReach nodes))))
      /\ (forall k, In (Detach k) new ->
            exists j q, k = (length below + j)%nat /\ nodes !! j = Some q
                        /\ isView2D q = false
                        /\ isLayoutRoot (drop j nodes) = true
                        /\ cached OfAppendedToView k st = None)
      /\ List.filter isCalculateLayout new = []
      /\ (forall m k, (k < length below)%nat ->
            cached m k st' = cached m k st)
      /\ consistent chain st'.
Proof.
  induction nodes as [|p parents IH]; intros below st Hchain Hcons.
  - exists Void, st, []. rewrite app_nil_r. repeat split; done.
  - cbn [requestFontUpdate]. destruct (isView2D p) eqn:Hview.
    + (* the override of View2D: applyFont alone *)
      assert (Hfull : map ApplyFont (rev (seq (length below)
                                            (fontReach (p :: parents))))
                      = [ApplyFont (length below)]).
      { simpl. by rewrite Hview. }
      rewrite Hfull.
      assert (Happly : exists v st' new,
                applyFont (length below) st = Some (v, st')
                /\ trace st' = trace st ++ new
                /\ sublist (List.filter isApplyFont new)
                           [ApplyFont (length below)]
                /\ (cached OfApplyFont (length below) st = None ->
                    List.filter isApplyFont new = [ApplyFont (length below)])
                /\ (forall k, ¬ In (Detach k) new)
                /\ List.filter isCalculateLayout new = []
                /\ (forall m k, (k < length below)%nat ->
                      cached m k st' = cached m k st)
                /\ consistent chain st').
      { destruct (applyFont_cases (length below) st) as [[Hc ->]|(v & Hc & ->)].
        - eexists _, _, [ApplyFont (length below)].
          split; [reflexivity|]. split; [done|]. split; [done|].
          split; [done|]. split.
          { intros k [H|[]]. discriminate H. }
          split; [done|]. split.
          { intros m k Hk. by rewrite cached_store_ne by (right; lia). }
          apply consistent_store; [done|]. by apply consistent_call.
        - exists v, st, []. rewrite app_nil_r. split; [done|].
          split; [done|]. split; [apply sublist_nil_l|].
          split; [congruence|]. split; [by intros k []|]. done. }
      destruct Happly as (v & st' & new & Ha & Ht & Hsub & Hall & Hdet & Hcalc
                          & Hframe & Hc').
      unfold overriding. destruct overridesCached.
      * unfold computed.
        destruct (cached OfRequestFontUpdate (length below) st) as [w|] eqn:Hc.
        -- exists w, st, []. rewrite app_nil_r. split; [done|].
           split; [done|]. split; [apply sublist_nil_l|]. split.
           { intros H. destruct (H (length below) ltac:(lia)). congruence. }
           split; [by intros k []|]. done.
        -- rewrite Ha. exists v, (store OfRequestFontUpdate (length below) v st'),
                          new.
           split; [done|]. split; [done|]. split; [done|]. split.
           { intros H. apply Hall. by destruct (H (length below) ltac:(lia)). }
           split; [intros k Hk; by destruct (Hdet k)|]. split; [done|].
           split.
           { intros m k Hk. rewrite cached_store_ne by (right; lia).
             by apply Hframe. }
           by apply consistent_store.
      * exists v, st', new. split; [done|]. split; [done|]. split; [done|].
        split.
        { intros H. apply Hall. by destruct (H (length below) ltac:(lia)). }
        split; [intros k Hk; by destruct (Hdet k)|]. done.
    + (* a Layout node *)
      rewrite (fontReach_seq _ _ _ Hview). unfold computed.
      destruct (cached OfRequestFontUpdate (length below) st) as [w|] eqn:Hc.
      * exists w, st, []. rewrite app_nil_r. split; [done|].
        split; [done|]. split; [apply sublist_nil_l|]. split.
        { intros H. destruct (H (length below) ltac:(lia)). congruence. }
        split; [by intros k []|]. done.
      * destruct (appendedToView_spec chain below (p :: parents) st Hchain Hcons)
          as (root & st1 & Ha & Hroot & Hc1 & Hcell1 & Hother1 & newA & Ht1
              & HnewA).
        rewrite Ha.
        destruct (IH (p :: below) st1) as (v2 & st2 & newF & Hf & Ht2 & Hsub2
                                           & Hall2 & Hdet2 & Hcalc2 & Hframe2
                                           & Hc2).
        { by rewrite chain_up. }
        { done. }
        rewrite Hf.
        assert (HfA : List.filter isApplyFont newA = [])
          by (by destruct HnewA as [->|(-> & _)]).
        assert (HcA : List.filter isCalculateLayout newA = [])
          by (by destruct HnewA as [->|(-> & _)]).
        assert (Hfont2 : cached OfApplyFont (length below) st2
                         = cached OfApplyFont (length below) st).
        { rewrite Hframe2 by (simpl; lia). unfold cached.
          by rewrite Hcell1. }
        assert (Hdet : forall k, In (Detach k) (newA ++ newF) ->
                  exists j q, k = (length below + j)%nat
                    /\ (p :: parents) !! j = Some q
                    /\ isView2D q = false
                    /\ isLayoutRoot (drop j (p :: parents)) = true
                    /\ cached OfAppendedToView k st = None).
        { intros k Hk. apply in_app_or in Hk as [Hk|Hk].
          - destruct HnewA as [->|(-> & Hr & Hd)]; [done|].
            destruct Hk as [[= <-]|[]].
            exists 0%nat, p. by rewrite Nat.add_0_r.
          - destruct (Hdet2 k Hk) as (j & q & -> & Hq & Hv & Hr & Hd).
            exists (S j), q. simpl length in *.
            rewrite Nat.add_succ_r. repeat split; try done.
            rewrite <- Hd. symmetry. apply Hother1. lia. }
        destruct (applyFont_cases (length below) st2)
          as [[Hd ->]|(v3 & Hd & ->)].
        -- eexists _, _, (newA ++ newF ++ [ApplyFont (length below)]).
           split; [reflexivity|]. split.
           { simpl. rewrite Ht2, Ht1. by rewrite <- !app_assoc. }
           split.
           { rewrite !List.filter_app, HfA. simpl.
             apply sublist_app; [done|]. done. }
           split.
           { intros H. rewrite !List.filter_app, HfA. simpl.
             rewrite Hall2; [done|]. intros k Hk. simpl in Hk.
             destruct (H k ltac:(lia)) as [H1 H2]. split.
             - unfold cached. by rewrite Hcell1.
             - unfold cached. by rewrite Hcell1. }
           split.
           { intros k Hk. apply Hdet. rewrite app_assoc in Hk.
             apply in_app_or in Hk as [Hk|[Hk|[]]]; [done|discriminate Hk]. }
           split.
           { by rewrite !List.filter_app, HcA, Hcalc2. }
           split.
           { intros m k Hk. rewrite !cached_store_ne by (right; lia).
             change (cached m k (call (ApplyFont (length below)) st2))
               with (cached m k st2).
             rewrite Hframe2 by (simpl; lia).
             destruct (decide (m = OfAppendedToView)) as [->|Hm].
             - apply Hother1. lia.
             - unfold cached. by rewrite Hcell1. }
           apply consistent_store; [done|]. apply consistent_store; [done|].
           by apply consistent_call.
        -- exists v3, (store OfRequestFontUpdate (length below) v3 st2),
             (newA ++ newF).
           split; [done|]. split.
           { simpl. rewrite Ht2, Ht1. by rewrite <- !app_assoc. }
           split.
           { rewrite !List.filter_app, HfA. simpl.
             rewrite <- (app_nil_r (List.filter isApplyFont newF)).
             apply sublist_app; [done|apply sublist_nil_l]. }
           split.
           { intros H. destruct (H (length below) ltac:(lia)) as [_ H2].
             rewrite Hfont2 in Hd. congruence. }
           split; [exact Hdet|]. split.
           { by rewrite !List.filter_app, HcA, Hcalc2. }
           split.
           { intros m k Hk. rewrite !cached_store_ne by (right; lia).
             rewrite Hframe2 by (simpl; lia).
             destruct (decide (m = OfAppendedToView)) as [->|Hm].
             - apply Hother1. lia.
             - unfold cached. by rewrite Hcell1. }
           by apply consistent_store.
Qed.

Lemma requestFontUpdate_again below nodes st v st' :
  requestFontUpdate overridesCached below nodes st = Some (v, st') ->
  requestFontUpdate overridesCached below nodes st' = Some (v, st').
Proof.
  destruct nodes as [|p parents]; [by intros [= <- <-]|].
  cbn [requestFontUpdate]. destruct (isView2D p).
  - unfold overriding. destruct overridesCached.
    + apply computed_again.
    + apply computed_again.
  - apply computed_again.
Qed.






End Cells.


Lemma consistent_fresh chain : consistent chain fresh.
Proof. intros k v H. unfold cached, fresh in H. simpl in H. done. Qed.



(** ** Moving the offset *)

(** C9.  [moveOffset] sets the offset and moves the position of a layout
    root by the difference of the two offsets times half the size.  Its
    documentation has the node kept in the same place, but on a node
    scaled by 2 the box does not stay where it was: its middle goes from
    (100, 50) to (200, 100).  On the same node without the scale it
    stays. *)
Lemma moveOffset_moves_scaled_node :
  let o' := Binary64.vec (-1) (-1) in
  let n := Binary64.scaled 2 in
  let n' := Binary64.moveOffset o' n in
  Binary64.offset n' = o'
  /\ Binary64.position n' = Binary64.vec 0 0
  /\ Binary64.transformPoint (Binary64.localToParent n) Binary64.zero
     = Binary64.vec 100 50
  /\ Binary64.transformPoint (Binary64.localToParent n') Binary64.zero
     = Binary64.vec 200 100
  /\ Binary64.transformPoint
       (Binary64.localToParent (Binary64.moveOffset o' (Binary64.scaled 1)))
       Binary64.zero
     = Binary64.vec 100 50.
Proof. repeat split; vm_compute; reflexivity. Qed.

(** ** Scripts of generators *)

Lemma andThen_snoc script final after :
  andThen (script ++ [final]) after = script ++ [final ++ after].
Proof.
  induction script as [|ops script IH]; [done|].
  simpl. rewrite IH. by destruct script.
Qed.

Lemma concat_startWith before script :
  concat (startWith before script) = before ++ concat script.
Proof.
  destruct script as [|ops rest]; simpl.
  - by rewrite !app_nil_r.
  - by rewrite <- app_assoc.
Qed.

(** The writes of [before; yield* tween(..); after], in order. *)
Lemma concat_around_tween before frames onProgress after :
  concat (around before (tween frames onProgress) after)
  = before ++ concat (map onProgress frames) ++ onProgress 1%Q ++ after.
Proof.
  unfold around, tween. rewrite andThen_snoc, concat_startWith, concat_app.
  simpl. by rewrite app_nil_r.
Qed.

(** The writes made up to the suspension point of frame [k]. *)
Lemma concat_take_around_tween before frames onProgress after k p :
  frames !! k = Some p ->
  concat (take (S k) (around before (tween frames onProgress) after))
  = before ++ concat (map onProgress (take k frames)) ++ onProgress p.
Proof.
  intros Hk. unfold around, tween. rewrite andThen_snoc.
  destruct frames as [|p0 frames]; [done|]. simpl map. simpl startWith.
  change (take (S k) ((before ++ onProgress p0)
                        :: map onProgress frames ++ [onProgress 1%Q ++ after]))
    with (take (S k) (startWith before
            (map onProgress (p0 :: frames) ++ [onProgress 1%Q ++ after]))).
  assert (Hlen : (S k <= length (map onProgress (p0 :: frames)))%nat).
  { rewrite length_map. apply lookup_lt_Some in Hk. lia. }
  assert (Htake : take (S k) (startWith before
                    (map onProgress (p0 :: frames) ++ [onProgress 1%Q ++ after]))
                  = startWith before (take (S k) (map onProgress (p0 :: frames)))).
  { simpl. f_equal. rewrite take_app_le; [done|]. simpl in Hlen. lia. }
  rewrite Htake, concat_startWith. f_equal.
  rewrite firstn_map, (take_S_r _ _ _ Hk), map_app, concat_app. simpl.
  by rewrite app_nil_r.
Qed.

Lemma hd_around before script after :
  exists ops, hd [] (around before script after) = before ++ ops.
Proof.
  unfold around. destruct (andThen script after) as [|ops rest]; simpl.
  - exists []. by rewrite app_nil_r.
  - by exists ops.
Qed.

Lemma last_andThen script after :
  List.last (andThen script after) [] = List.last script [] ++ after.
Proof.
  induction script as [|ops script IH]; [done|].
  destruct script as [|ops' script]; [done|].
  change (andThen (ops :: ops' :: script) after)
    with (ops :: andThen (ops' :: script) after).
  change (List.last (ops :: ops' :: script) [])
    with (List.last (ops' :: script) []).
  rewrite <- IH. simpl. by destruct script.
Qed.

Lemma last_around before script after :
  exists ops, List.last (around before script after) [] = ops ++ after.
Proof.
  unfold around. pose proof (last_andThen script after) as Hlast.
  destruct (andThen script after) as [|ops rest] eqn:Hs.
  - destruct script as [|? [|? ?]]; discriminate.
  - destruct rest as [|ops' rest]; simpl in *.
    + exists (before ++ List.last script []). rewrite Hlast.
      by rewrite <- app_assoc.
    + by exists (List.last script []).
Qed.

Lemma locks_app ops1 ops2 : locks (ops1 ++ ops2) = (locks ops1 + locks ops2)%nat.
Proof. unfold locks. by rewrite List.filter_app, length_app. Qed.

Lemma releases_app ops1 ops2 :
  releases (ops1 ++ ops2) = (releases ops1 + releases ops2)%nat.
Proof. unfold releases. by rewrite List.filter_app, length_app. Qed.

Lemma locks_hd script : (locks (hd [] script) <= locks (concat script))%nat.
Proof. destruct script; simpl; [done|]. rewrite locks_app. lia. Qed.

Lemma releases_last script :
  (releases (List.last script []) <= releases (concat script))%nat.
Proof.
  induction script as [|ops script IH]; [done|].
  simpl concat. rewrite releases_app. destruct script; simpl in *; lia.
Qed.

(** Frames that neither lock nor release. *)
Lemma frames_quiet (onProgress : Q -> list Op) frames :
  (forall p, locks (onProgress p) = 0%nat /\ releases (onProgress p) = 0%nat) ->
  locks (concat (map onProgress frames)) = 0%nat
  /\ releases (concat (map onProgress frames)) = 0%nat.
Proof.
  intros Hq. induction frames as [|p frames [IH1 IH2]]; [done|].
  simpl. destruct (Hq p) as [H1 H2].
  by rewrite locks_app, releases_app, H1, H2, IH1, IH2.
Qed.

(** ** Absorbed writes *)

Lemma setWidth_absorbs ops :
  Forall isSetWidth ops -> forall v n, setWidth v (run ops n) = setWidth v n.
Proof.
  induction 1 as [|op ops [u ->] _ IH]; intros v n; [done|].
  change (run (SetWidth u :: ops) n) with (run ops (setWidth u n)).
  by rewrite IH.
Qed.

Lemma setHeight_absorbs ops :
  Forall isSetHeight ops -> forall v n, setHeight v (run ops n) = setHeight v n.
Proof.
  induction 1 as [|op ops [u ->] _ IH]; intros v n; [done|].
  change (run (SetHeight u :: ops) n) with (run ops (setHeight u n)).
  by rewrite IH.
Qed.

Lemma setSize_absorbs ops :
  Forall isSetSize ops -> forall v n, setSize v (run ops n) = setSize v n.
Proof.
  induction 1 as [|op ops [u ->] _ IH]; intros v n; [done|].
  change (run (SetSize u :: ops) n) with (run ops (setSize u n)).
  by rewrite IH.
Qed.

Lemma frames_Forall (P : Op -> Prop) (onProgress : Q -> list Op) frames :
  (forall p, Forall P (onProgress p)) ->
  Forall P (concat (map onProgress frames)).
Proof.
  intros HP. induction frames as [|p frames IH]; simpl; [done|].
  apply Forall_app. split; [apply HP|done].
Qed.

Lemma release_lock n v :
  releaseSize (setWidth v (lockSize n)) = setWidth v n
  /\ releaseSize (setHeight v (lockSize n)) = setHeight v n.
Proof.
  unfold releaseSize, setWidth, setHeight, lockSize, withSelf, setWidthProp,
    setHeightProp, setCounterProp. simpl.
  split; do 2 f_equal; lia.
Qed.

Lemma release_lock_size n v : releaseSize (setSize v (lockSize n)) = setSize v n.
Proof.
  unfold releaseSize, setSize, setWidth, setHeight, lockSize, withSelf,
    setWidthProp, setHeightProp, setCounterProp. simpl.
  do 2 f_equal; lia.
Qed.

(** ** The three size tweens *)

Section SizeTweens.

Variable E : Solver.
Variable timingFunction : Q -> Q.

Lemma tweenWidth_locking value frames f n :
  locking (TweenWidth value frames f) n = true ->
  tweenWidth E timingFunction value frames f n
  = around
      [SetWidth value; SetWidth (Value (Pixels (Vector2.x (computedSize E n))));
       LockSize]
      (tween frames (fun p =>
         [SetWidth (Value (f (Pixels (Vector2.x (computedSize E n)))
                             (Pixels (Vector2.x (computedSize E (setWidth value n))))
                             (timingFunction p)))]))
      [SetWidth value; ReleaseSize].
Proof.
  intros H. unfold locking in H. unfold tweenWidth. cbv zeta. by rewrite H.
Qed.

Lemma tweenHeight_locking value frames f n :
  locking (TweenHeight value frames f) n = true ->
  tweenHeight E timingFunction value frames f n
  = around
      [SetHeight value; SetHeight (Value (Pixels (Vector2.y (computedSize E n))));
       LockSize]
      (tween frames (fun p =>
         [SetHeight (Value (f (Pixels (Vector2.y (computedSize E n)))
                              (Pixels (Vector2.y (computedSize E (setHeight value n))))
                              (timingFunction p)))]))
      [SetHeight value; ReleaseSize].
Proof.
  intros H. unfold locking in H. unfold tweenHeight. cbv zeta. by rewrite H.
Qed.

(** Every size tween leaves the counter where it found it. *)
Lemma startTween_balanced tw : balanced (Pending (startTween E timingFunction tw)).
Proof.
  intros n. destruct tw as [value frames f|value frames f|value frames f];
    simpl; unfold tweenWidth, tweenHeight, tweenSize; cbv zeta;
    rewrite concat_around_tween, !delta_app;
    match goal with
    | |- context [concat (map ?g frames)] =>
        destruct (frames_quiet g frames) as [Hl Hr]; [done|];
        assert (Hd : delta (concat (map g frames)) = 0)
          by (unfold delta; rewrite Hl, Hr; done);
        rewrite Hd
    end;
    match goal with
    | |- context [when ?b _] => destruct b
    end; unfold delta, locks, releases; simpl; lia.
Qed.

(** A size tween that locks takes the lock once, in its first segment, and
    releases it once, in its last. *)
Lemma startTween_locks_once tw n :
  locking tw n = true ->
  let script := startTween E timingFunction tw n in
  locks (concat script) = 1%nat /\ releases (concat script) = 1%nat
  /\ locks (hd [] script) = 1%nat /\ releases (List.last script []) = 1%nat.
Proof.
  intros Hlock script.
  assert (Hshape : exists before frames onProgress after,
             script = around before (tween frames onProgress) after
             /\ (forall p, locks (onProgress p) = 0%nat
                           /\ releases (onProgress p) = 0%nat)
             /\ locks before = 1%nat /\ releases before = 0%nat
             /\ locks after = 0%nat /\ releases after = 1%nat).
  { subst script. destruct tw as [value frames f|value frames f|value frames f].
    - simpl. rewrite tweenWidth_locking by done.
      eexists _, _, _, _. split; [reflexivity|]. done.
    - simpl. rewrite tweenHeight_locking by done.
      eexists _, _, _, _. split; [reflexivity|]. done.
    - simpl. unfold tweenSize. cbv zeta.
      eexists _, _, _, _. split; [reflexivity|]. split; [done|].
      destruct (negb (isNumberPair value)); done. }
  destruct Hshape
    as (before & frames & onProgress & after & -> & Hq & Hb1 & Hb2 & Ha1 & Ha2).
  destruct (frames_quiet onProgress frames Hq) as [Hl Hr].
  destruct (Hq 1%Q) as [Hl1 Hr1].
  assert (Htl : locks (concat (around before (tween frames onProgress) after))
                = 1%nat).
  { by rewrite concat_around_tween, !locks_app, Hl, Hb1, Ha1, Hl1. }
  assert (Htr : releases (concat (around before (tween frames onProgress) after))
                = 1%nat).
  { by rewrite concat_around_tween, !releases_app, Hr, Hb2, Ha2, Hr1. }
  split; [done|]. split; [done|]. split.
  - pose proof (locks_hd (around before (tween frames onProgress) after)).
    destruct (hd_around before (tween frames onProgress) after) as [ops Hops].
    rewrite Hops in *. rewrite locks_app in *. lia.
  - pose proof (releases_last (around before (tween frames onProgress) after)).
    destruct (last_around before (tween frames onProgress) after)
      as [ops Hops].
    rewrite Hops in *. rewrite releases_app in *. lia.
Qed.

End SizeTweens.

(** ** Tweens running side by side *)

Lemma held_suspend (rest : Script) : held (suspend rest) = - delta (concat rest).
Proof. by destruct rest. Qed.

Lemma balanced_suspend (rest : Script) : balanced (suspend rest).
Proof. by destruct rest. Qed.

(** Resuming a task moves the counter by what the task takes or gives
    back. *)
Lemma resume_counter task n :
  balanced task ->
  sizeLockCounter (self (snd (resume task n))) - held (fst (resume task n))
  = sizeLockCounter (self n) - held task
  /\ balanced (fst (resume task n)).
Proof.
  intros Hb. destruct task as [start|[|ops rest]|]; simpl.
  - specialize (Hb n). destruct (start n) as [|ops rest]; simpl; [lia|].
    simpl in Hb. rewrite delta_app in Hb.
    rewrite held_suspend, counter_run. split; [lia|apply balanced_suspend].
  - rewrite delta_nil. done.
  - rewrite held_suspend, counter_run, delta_app.
    split; [lia|apply balanced_suspend].
  - done.
Qed.

Lemma heldBy_insert (pool : list Task) i task task' :
  pool !! i = Some task ->
  heldBy (<[i := task']> pool) = heldBy pool - held task + held task'.
Proof.
  revert i; induction pool as [|t0 pool IH]; intros i Hi; [done|].
  destruct i as [|i]; simpl in *.
  - injection Hi as ->. lia.
  - rewrite (IH i Hi). lia.
Qed.

(** Whatever the order in which the tasks are resumed, the counter stays
    at its starting value plus the locks currently held. *)
Lemma schedule_counter order (pool : list Task) n :
  Forall balanced pool ->
  sizeLockCounter (self (snd (schedule order pool n)))
  - heldBy (fst (schedule order pool n))
  = sizeLockCounter (self n) - heldBy pool.
Proof.
  revert pool n; induction order as [|i order IH]; intros pool n Hb; [done|].
  simpl. destruct (pool !! i) as [task|] eqn:Hi; [|by apply IH].
  destruct (resume task n) as [task' n'] eqn:Hres.
  assert (Htask : balanced task) by (eapply Forall_lookup_1; eauto).
  destruct (resume_counter task n Htask) as [Hc Hb'].
  rewrite Hres in Hc, Hb'. simpl in Hc, Hb'.
  rewrite IH by (by apply Forall_insert).
  rewrite (heldBy_insert pool i task task' Hi). lia.
Qed.

Lemma heldBy_completed (pool : list Task) :
  forallb isCompleted pool = true -> heldBy pool = 0.
Proof.
  induction pool as [|task pool IH]; [done|]. simpl.
  intros H. apply andb_prop in H as [Ht Hp]. rewrite (IH Hp).
  by destruct task.
Qed.

Lemma heldBy_pending {A} (start : A -> t -> Script) (l : list A) :
  heldBy (map (fun a => Pending (start a)) l) = 0.
Proof. induction l as [|a l IH]; [done|]. simpl. by rewrite IH. Qed.

(** C2.  A size tween that locks -- its desired size or its target is not
    a number, or it is [tweenSize] -- calls [lockSize] once, in the
    segment it starts with, and [releaseSize] once, in the segment it
    completes with, so that the counter is back at its prior value when
    the tween has completed.  When several size tweens of a node run side
    by side, in whatever order they are resumed, the counter is its prior
    value plus the locks held by the tweens that have started and not yet
    completed; it is the prior value again once all have completed. *)
Theorem sizeLock_reference_counted E timingFunction :
  (forall tw n, locking tw n = true ->
     let script := startTween E timingFunction tw n in
     locks (concat script) = 1%nat /\ releases (concat script) = 1%nat
     /\ locks (hd [] script) = 1%nat
     /\ releases (List.last script []) = 1%nat
     /\ sizeLockCounter (self (run (concat script) n))
        = sizeLockCounter (self n))
  /\ (forall tweens order n,
     let pool := map (fun tw => Pending (startTween E timingFunction tw)) tweens in
     sizeLockCounter (self (snd (schedule order pool n)))
     = sizeLockCounter (self n) + heldBy (fst (schedule order pool n))
     /\ (forallb isCompleted (fst (schedule order pool n)) = true ->
         sizeLockCounter (self (snd (schedule order pool n)))
         = sizeLockCounter (self n))).
Proof.
  split.
  - intros tw n Hlock script.
    destruct (startTween_locks_once E timingFunction tw n Hlock)
      as (H1 & H2 & H3 & H4).
    repeat split; try done.
    rewrite counter_run. unfold delta, script. rewrite H1, H2. lia.
  - intros tweens order n pool.
    assert (Hb : Forall balanced pool).
    { subst pool. apply Forall_forall. intros task Hin.
      apply list_elem_of_In, in_map_iff in Hin as (tw & <- & _).
      apply startTween_balanced. }
    pose proof (schedule_counter order pool n Hb) as Hc.
    assert (Hp : heldBy pool = 0) by apply heldBy_pending.
    split; [lia|]. intros Hdone. rewrite (heldBy_completed _ Hdone) in Hc. lia.
Qed.

Lemma sizeLock_reference_counted_witness :
  let n := alone initialProps in
  let first := TweenWidth (Value (Pixels 100)) [0; 1 # 2]%Q linearLerp in
  let tweens :=
    [first;
     TweenSize (Value (Percent 50, Auto)) [0]%Q vectorLerp;
     TweenHeight (Value Auto) [] linearLerp] in
  let pool := map (fun tw => Pending (startTween sampleSolver linearTiming tw))
                  tweens in
  let order := [0; 1; 0; 2; 1; 0]%nat in
  locking first n = true
  /\ locks (hd [] (startTween sampleSolver linearTiming first n)) = 1%nat
  /\ releases (List.last (startTween sampleSolver linearTiming first n) [])
     = 1%nat
  /\ forallb isCompleted (fst (schedule order pool n)) = true
  /\ sizeLockCounter (self (snd (schedule [0; 1]%nat pool n))) = 2
  /\ sizeLockCounter (self (snd (schedule order pool n))) = 0.
Proof.
  intros n first tweens pool order.
  assert (Hlock : locking first n = true) by reflexivity.
  assert (Hdone : forallb isCompleted (fst (schedule order pool n)) = true)
    by reflexivity.
  pose proof (proj1 (sizeLock_reference_counted sampleSolver linearTiming)
                first n Hlock) as (_ & _ & Hfirst & Hlast & _).
  split; [exact Hlock|]. split; [exact Hfirst|]. split; [exact Hlast|].
  split; [exact Hdone|]. split; [reflexivity|].
  exact (proj2 (proj2 (sizeLock_reference_counted sampleSolver linearTiming)
                  tweens order n) Hdone).
Defined.

(** ** What a size tween does to a node with a derived size *)

Section NaturalSize.

Variable E : Solver.
Variable timingFunction : Q -> Q.

Lemma tweenWidth_natural value frames f n :
  isNumber (fst (desiredSize (self n))) = false ->
  let from := Vector2.x (computedSize E n) in
  let to := Vector2.x (computedSize E (setWidth value n)) in
  let script := tweenWidth E timingFunction value frames f n in
  (forall k p, frames !! k = Some p ->
     let s := run (concat (take (S k) script)) n in
     sizeLockCounter (self s) = sizeLockCounter (self n) + 1
     /\ width (self s)
        = Value (f (Pixels from) (Pixels to) (timingFunction p)))
  /\ writesThenReleases script (SetWidth value)
  /\ run (concat script) n = setWidth value n
  /\ Vector2.x (computedSize E (run (concat script) n)) = to.
Proof.
  intros Hnat from to script.
  assert (Hlock : locking (TweenWidth value frames f) n = true)
    by (simpl; simpl in Hnat; by rewrite Hnat).
  unfold script. rewrite (tweenWidth_locking E timingFunction _ _ _ _ Hlock).
  fold from to.
  set (g := fun p : Q =>
              [SetWidth (Value (f (Pixels from) (Pixels to) (timingFunction p)))]).
  assert (Hg : forall p, Forall isSetWidth (g p))
    by (intros p; repeat constructor; by eexists).
  assert (Hq : forall p, locks (g p) = 0%nat /\ releases (g p) = 0%nat) by done.
  assert (Hfinal : run (concat (around [SetWidth value; SetWidth (Value (Pixels from)); LockSize]
                                  (tween frames g) [SetWidth value; ReleaseSize])) n
                   = setWidth value n).
  { rewrite concat_around_tween, app_assoc, app_assoc, run_app.
    change (run [SetWidth value; ReleaseSize] ?m)
      with (releaseSize (setWidth value m)).
    rewrite <- app_assoc, run_app, setWidth_absorbs.
    - change (run [SetWidth value; SetWidth (Value (Pixels from)); LockSize] n)
        with (lockSize (setWidth (Value (Pixels from)) (setWidth value n))).
      by rewrite (proj1 (release_lock _ _)).
    - apply Forall_app. split; [by apply frames_Forall|apply Hg]. }
  split; [|split; [|split]].
  - intros k p Hk. cbv zeta.
    rewrite (concat_take_around_tween _ _ _ _ _ _ Hk). split.
    + rewrite counter_run, !delta_app.
      destruct (frames_quiet g (take k frames) Hq) as [Hl Hr].
      unfold delta at 2. rewrite Hl, Hr. unfold delta, locks, releases.
      simpl. lia.
    + by rewrite app_assoc, run_app.
  - exists ([SetWidth value; SetWidth (Value (Pixels from)); LockSize]
              ++ concat (map g frames) ++ g 1%Q).
    rewrite concat_around_tween. by rewrite <- !app_assoc.
  - exact Hfinal.
  - by rewrite Hfinal.
Qed.

Lemma tweenHeight_natural value frames f n :
  isNumber (snd (desiredSize (self n))) = false ->
  let from := Vector2.y (computedSize E n) in
  let to := Vector2.y (computedSize E (setHeight value n)) in
  let script := tweenHeight E timingFunction value frames f n in
  (forall k p, frames !! k = Some p ->
     let s := run (concat (take (S k) script)) n in
     sizeLockCounter (self s) = sizeLockCounter (self n) + 1
     /\ height (self s)
        = Value (f (Pixels from) (Pixels to) (timingFunction p)))
  /\ writesThenReleases script (SetHeight value)
  /\ run (concat script) n = setHeight value n
  /\ Vector2.y (computedSize E (run (concat script) n)) = to.
Proof.
  intros Hnat from to script.
  assert (Hlock : locking (TweenHeight value frames f) n = true)
    by (simpl; simpl in Hnat; by rewrite Hnat).
  unfold script. rewrite (tweenHeight_locking E timingFunction _ _ _ _ Hlock).
  fold from to.
  set (g := fun p : Q =>
              [SetHeight (Value (f (Pixels from) (Pixels to) (timingFunction p)))]).
  assert (Hg : forall p, Forall isSetHeight (g p))
    by (intros p; repeat constructor; by eexists).
  assert (Hq : forall p, locks (g p) = 0%nat /\ releases (g p) = 0%nat) by done.
  assert (Hfinal : run (concat (around [SetHeight value; SetHeight (Value (Pixels from)); LockSize]
                                  (tween frames g) [SetHeight value; ReleaseSize])) n
                   = setHeight value n).
  { rewrite concat_around_tween, app_assoc, app_assoc, run_app.
    change (run [SetHeight value; ReleaseSize] ?m)
      with (releaseSize (setHeight value m)).
    rewrite <- app_assoc, run_app, setHeight_absorbs.
    - change (run [SetHeight value; SetHeight (Value (Pixels from)); LockSize] n)
        with (lockSize (setHeight (Value (Pixels from)) (setHeight value n))).
      by rewrite (proj2 (release_lock _ _)).
    - apply Forall_app. split; [by apply frames_Forall|apply Hg]. }
  split; [|split; [|split]].
  - intros k p Hk. cbv zeta.
    rewrite (concat_take_around_tween _ _ _ _ _ _ Hk). split.
    + rewrite counter_run, !delta_app.
      destruct (frames_quiet g (take k frames) Hq) as [Hl Hr].
      unfold delta at 2. rewrite Hl, Hr. unfold delta, locks, releases.
      simpl. lia.
    + by rewrite app_assoc, run_app.
  - exists ([SetHeight value; SetHeight (Value (Pixels from)); LockSize]
              ++ concat (map g frames) ++ g 1%Q).
    rewrite concat_around_tween. by rewrite <- !app_assoc.
  - exact Hfinal.
  - by rewrite Hfinal.
Qed.

Lemma tweenSize_natural value frames f n :
  negb (isNumber (fst (desiredSize (self n))))
  || negb (isNumber (snd (desiredSize (self n)))) = true ->
  let from := computedSize E n in
  let to := if isNumberPair value then asVector (unwrap value)
            else computedSize E (setSize value n) in
  let script := tweenSize E timingFunction value frames f n in
  (forall k p, frames !! k = Some p ->
     let s := run (concat (take (S k) script)) n in
     sizeLockCounter (self s) = sizeLockCounter (self n) + 1
     /\ width (self s)
        = Value (Pixels (Vector2.x (f from to (timingFunction p))))
     /\ height (self s)
        = Value (Pixels (Vector2.y (f from to (timingFunction p)))))
  /\ releasesThenWrites script (SetSize value)
  /\ run (concat script) n = setSize value n
  /\ (isNumberPair value = false ->
      computedSize E (run (concat script) n) = to).
Proof.
  intros Hnat from to script. unfold script, tweenSize. cbv zeta.
  rewrite Hnat. fold from. fold to.
  set (before := when (negb (isNumberPair value)) [SetSize value]
                   ++ [SetSize (Value (pixels from)); LockSize]).
  set (g := fun p : Q =>
              [SetSize (Value (pixels (f from to (timingFunction p))))]).
  assert (Hg : forall p, Forall isSetSize (g p))
    by (intros p; repeat constructor; by eexists).
  assert (Hq : forall p, locks (g p) = 0%nat /\ releases (g p) = 0%nat) by done.
  assert (Hbefore : run before n
                    = lockSize (setSize (Value (pixels from)) n)).
  { unfold before. by destruct (negb (isNumberPair value)). }
  assert (Hdelta : delta before = 1).
  { unfold before. by destruct (negb (isNumberPair value)). }
  assert (Hfinal : run (concat (around before (tween frames g)
                                  [ReleaseSize; SetSize value])) n
                   = setSize value n).
  { rewrite concat_around_tween, app_assoc, app_assoc, run_app.
    change (run [ReleaseSize; SetSize value] ?m)
      with (releaseSize (setSize value m)).
    rewrite <- app_assoc, run_app, setSize_absorbs.
    - rewrite Hbefore, release_lock_size. done.
    - apply Forall_app. split; [by apply frames_Forall|apply Hg]. }
  split; [|split; [|split]].
  - intros k p Hk. cbv zeta.
    rewrite (concat_take_around_tween _ _ _ _ _ _ Hk). split.
    + rewrite counter_run, !delta_app, Hdelta.
      destruct (frames_quiet g (take k frames) Hq) as [Hl Hr].
      unfold delta at 1. rewrite Hl, Hr. unfold delta, locks, releases.
      simpl. lia.
    + by rewrite app_assoc, run_app.
  - exists (before ++ concat (map g frames) ++ g 1%Q).
    rewrite concat_around_tween. by rewrite <- !app_assoc.
  - exact Hfinal.
  - intros Hlit. rewrite Hfinal. unfold to. by rewrite Hlit.
Qed.

End NaturalSize.

(** A generator cannot end both ways. *)
Lemma writesThenReleases_only script final final' :
  isRelease final' = false ->
  writesThenReleases script final -> ¬ releasesThenWrites script final'.
Proof.
  intros Hw [ops Hops] [ops' Hops']. rewrite Hops in Hops'.
  apply (f_equal (@last Op)) in Hops'.
  rewrite (cons_middle final ops [ReleaseSize]) in Hops'.
  rewrite (cons_middle ReleaseSize ops' [final']) in Hops'.
  rewrite !app_assoc, !last_snoc in Hops'.
  injection Hops' as <-. discriminate Hw.
Qed.

(** C1, as the code has it.  A size tween on a node whose desired size is
    not a number resolves the start value once, from the computed size of
    the node as it is when the tween begins, and the end value once; at
    every suspension point of the interpolation the lock is held and the
    size is the interpolated number between the two; after the last frame
    the lock is released and the terminal value is written -- in
    [tweenSize] the release comes first, in [tweenWidth] and [tweenHeight]
    the write comes first -- which leaves the node as a plain write of the
    terminal value would: derived again, at the resolved end value, when
    that value is not a number, pinned to it when it is. *)
Theorem size_tween_natural E timingFunction :
  (forall value frames f n,
     isNumber (fst (desiredSize (self n))) = false ->
     let from := Vector2.x (computedSize E n) in
     let to := Vector2.x (computedSize E (setWidth value n)) in
     let script := tweenWidth E timingFunction value frames f n in
     (forall k p, frames !! k = Some p ->
        let s := run (concat (take (S k) script)) n in
        sizeLockCounter (self s) = sizeLockCounter (self n) + 1
        /\ width (self s)
           = Value (f (Pixels from) (Pixels to) (timingFunction p)))
     /\ writesThenReleases script (SetWidth value)
     /\ run (concat script) n = setWidth value n
     /\ Vector2.x (computedSize E (run (concat script) n)) = to)
  /\ (forall value frames f n,
     isNumber (snd (desiredSize (self n))) = false ->
     let from := Vector2.y (computedSize E n) in
     let to := Vector2.y (computedSize E (setHeight value n)) in
     let script := tweenHeight E timingFunction value frames f n in
     (forall k p, frames !! k = Some p ->
        let s := run (concat (take (S k) script)) n in
        sizeLockCounter (self s) = sizeLockCounter (self n) + 1
        /\ height (self s)
           = Value (f (Pixels from) (Pixels to) (timingFunction p)))
     /\ writesThenReleases script (SetHeight value)
     /\ run (concat script) n = setHeight value n
     /\ Vector2.y (computedSize E (run (concat script) n)) = to)
  /\ (forall value frames f n,
     negb (isNumber (fst (desiredSize (self n))))
     || negb (isNumber (snd (desiredSize (self n)))) = true ->
     let from := computedSize E n in
     let to := if isNumberPair value then asVector (unwrap value)
               else computedSize E (setSize value n) in
     let script := tweenSize E timingFunction value frames f n in
     (forall k p, frames !! k = Some p ->
        let s := run (concat (take (S k) script)) n in
        sizeLockCounter (self s) = sizeLockCounter (self n) + 1
        /\ width (self s)
           = Value (Pixels (Vector2.x (f from to (timingFunction p))))
        /\ height (self s)
           = Value (Pixels (Vector2.y (f from to (timingFunction p)))))
     /\ releasesThenWrites script (SetSize value)
     /\ run (concat script) n = setSize value n
     /\ (isNumberPair value = false ->
         computedSize E (run (concat script) n) = to)).
Proof.
  split; [|split].
  - apply tweenWidth_natural.
  - apply tweenHeight_natural.
  - apply tweenSize_natural.
Qed.

Lemma size_tween_natural_witness :
  let n := alone (withGrow 1 initialProps) in
  let frames := [0; 1 # 2]%Q in
  let widthScript :=
    tweenWidth sampleSolver linearTiming (Value (Percent 50)) frames
               linearLerp n in
  let heightScript :=
    tweenHeight sampleSolver linearTiming (Value (Pixels 90)) frames
                linearLerp n in
  let sizeScript :=
    tweenSize sampleSolver linearTiming (Value (Percent 50, Auto)) frames
              vectorLerp n in
  isNumber (fst (desiredSize (self n))) = false
  /\ isNumber (snd (desiredSize (self n))) = false
  /\ writesThenReleases widthScript (SetWidth (Value (Percent 50)))
  /\ run (concat widthScript) n = setWidth (Value (Percent 50)) n
  /\ (Vector2.x (computedSize sampleSolver (run (concat (take 2 widthScript)) n))
      == 1440)%Q
  /\ (Vector2.x (computedSize sampleSolver (run (concat widthScript) n))
      == 960)%Q
  /\ writesThenReleases heightScript (SetHeight (Value (Pixels 90)))
  /\ run (concat heightScript) n = setHeight (Value (Pixels 90)) n
  /\ releasesThenWrites sizeScript (SetSize (Value (Percent 50, Auto)))
  /\ run (concat sizeScript) n = setSize (Value (Percent 50, Auto)) n.
Proof.
  intros n frames widthScript heightScript sizeScript.
  assert (Hw : isNumber (fst (desiredSize (self n))) = false) by reflexivity.
  assert (Hh : isNumber (snd (desiredSize (self n))) = false) by reflexivity.
  assert (Hs : negb (isNumber (fst (desiredSize (self n))))
               || negb (isNumber (snd (desiredSize (self n)))) = true)
    by reflexivity.
  pose proof (size_tween_natural sampleSolver linearTiming)
    as (Hwidth & Hheight & Hsize).
  destruct (Hwidth (Value (Percent 50)) frames linearLerp n Hw)
    as (_ & Hw1 & Hw2 & _).
  destruct (Hheight (Value (Pixels 90)) frames linearLerp n Hh)
    as (_ & Hh1 & Hh2 & _).
  destruct (Hsize (Value (Percent 50, Auto)) frames vectorLerp n Hs)
    as (_ & Hs1 & Hs2 & _).
  split; [exact Hw|]. split; [exact Hh|]. split; [exact Hw1|].
  split; [exact Hw2|]. split; [reflexivity|]. split; [reflexivity|].
  split; [exact Hh1|]. split; [exact Hh2|]. split; [exact Hs1|]. exact Hs2.
Defined.

(** C1 as stated fails on the order of the last two writes: on a node of
    automatic width, [tweenWidth] to 100 pixels writes the terminal value
    and then releases the lock; it does not release first. *)
Lemma tweenWidth_writes_before_releasing :
  let n := alone initialProps in
  let value := Value (Pixels 100) in
  let script := tweenWidth sampleSolver linearTiming value [0]%Q linearLerp n in
  isNumber (fst (desiredSize (self n))) = false
  /\ last (concat script) = Some ReleaseSize
  /\ writesThenReleases script (SetWidth value)
  /\ ¬ releasesThenWrites script (SetWidth value).
Proof.
  intros n value script.
  assert (H : isNumber (fst (desiredSize (self n))) = false) by reflexivity.
  destruct (tweenWidth_natural sampleSolver linearTiming value [0]%Q
              linearLerp n H) as (_ & Horder & _).
  split; [exact H|]. split; [reflexivity|]. split; [exact Horder|].
  by apply (writesThenReleases_only script (SetWidth value)).
Qed.

End LayoutFacts.

(* ===================================================================== *)
(** * Further properties of the image exporter *)
(* ===================================================================== *)

Section ExporterSessions.

Import ImageExporter.

Implicit Types (st : Exporter) (sched : Schedule) (signal : AbortSignal).

Lemma awaitRoom_lookup signal i sched st :
  frameLookup (snd (awaitRoom signal i sched st)) ⊆ frameLookup st
  /\ hot (snd (awaitRoom signal i sched st)) = hot st.
Proof.
  destruct (awaitRoom_cases signal i sched st)
    as [(k & _ & _ & _ & ->)|[(k & _ & _ & _ & _ & ->)|(_ & _ & ->)]]; simpl;
    split; (apply afterSleeps_lookup || apply afterSleeps_hot).
Qed.

Lemma awaitRoom_room_size signal i sched st h st' :
  awaitRoom signal i sched st = (Room h, st') ->
  (size (frameLookup st') <= EXPORT_FRAME_LIMIT)%nat.
Proof.
  destruct (awaitRoom_cases signal i sched st)
    as [(k & _ & _ & Hr & ->)|[(k & _ & _ & _ & _ & ->)|(_ & _ & ->)]];
    intros Heq; [|discriminate|discriminate].
  by injection Heq as _ <-.
Qed.

Lemma handleFrame_hot frame signal sched st :
  hot (snd (handleFrame frame signal sched st)) = hot st.
Proof.
  unfold handleFrame. destruct (decide (frame ∈ frameLookup st)); [done|].
  destruct (hot st) eqn:Hhot; [|done].
  pose proof (awaitRoom_lookup signal 0 sched st) as [_ Hh].
  destruct (awaitRoom signal 0 sched st) as [[h|h|] st']; simpl in *; congruence.
Qed.

(** A call never leaves more frames in flight than it found, unless it
    accepts the frame, and then at most 257 are in flight. *)
Lemma handleFrame_size frame signal sched st :
  (size (frameLookup (snd (handleFrame frame signal sched st)))
   <= Nat.max (size (frameLookup st)) (S EXPORT_FRAME_LIMIT))%nat.
Proof.
  unfold handleFrame. destruct (decide (frame ∈ frameLookup st)); [simpl; lia|].
  destruct (hot st); [|simpl; lia].
  pose proof (awaitRoom_lookup signal 0 sched st) as [Hsub _].
  pose proof (awaitRoom_room_size signal 0 sched st) as Hroom.
  destruct (awaitRoom signal 0 sched st) as [[h|h|] st']; simpl in *.
  - specialize (Hroom h st' eq_refl).
    rewrite size_union_alt, size_singleton.
    assert ((size (frameLookup st' ∖ {[frame]}) <= size (frameLookup st'))%nat)
      by (apply subseteq_size, subseteq_difference_l; done).
    lia.
  - apply subseteq_size in Hsub. lia.
  - apply subseteq_size in Hsub. lia.
Qed.

Lemma exportTask_lookup blob reader frame signal i st :
  frameLookup (exportTask blob reader frame signal i st) ⊆ frameLookup st
  /\ hot (exportTask blob reader frame signal i st) = hot st.
Proof.
  unfold exportTask, exportFailed. destruct blob as [b|]; simpl.
  - destruct (signal (S i)); [done|]. destruct (reader b); simpl.
    + by destruct (signal (S (S i))).
    + split; [by apply subseteq_difference_l|done].
  - split; [by apply subseteq_difference_l|done].
Qed.

Lemma drain_lookup polls sched st :
  frameLookup (snd (drain polls sched st)) ⊆ frameLookup st
  /\ hot (snd (drain polls sched st)) = hot st.
Proof.
  destruct (drain_cases polls sched st) as [(k & _ & _ & _ & ->)|(_ & ->)];
    simpl; split; (apply afterSleeps_lookup || apply afterSleeps_hot).
Qed.

Lemma stop_lookup result sched st :
  frameLookup (snd (stop result sched st)) ⊆ frameLookup st
  /\ hot (snd (stop result sched st)) = hot st.
Proof.
  unfold stop.
  destruct (isSuccess result); [|split; [apply empty_subseteq|done]].
  pose proof (drain_lookup 0 sched (emit (ConsoleLog result) st)) as [Hs Hh].
  destruct (drain 0 sched (emit (ConsoleLog result) st)) as [[k|] st'];
    simpl in *; (split; [|done]); [apply empty_subseteq|done].
Qed.

Lemma happen_hot ev st : hot (happen ev st) = hot st.
Proof.
  destruct ev; simpl; try done.
  - apply handleFrame_hot.
  - apply exportTask_lookup.
  - unfold onAck. by destruct (hot st) eqn:H.
  - apply stop_lookup.
Qed.

Lemma happen_size ev st :
  (size (frameLookup (happen ev st))
   <= Nat.max (size (frameLookup st)) (S EXPORT_FRAME_LIMIT))%nat.
Proof.
  destruct ev.
  - simpl. lia.
  - assert (Hz : size (frameLookup (happen Start st)) = 0%nat)
      by apply size_empty.
    rewrite Hz. lia.
  - apply handleFrame_size.
  - pose proof (proj1 (exportTask_lookup blob reader frame signal i st)) as H.
    apply subseteq_size in H. simpl. lia.
  - simpl. unfold onAck. destruct (hot st); simpl; [|lia].
    assert ((size (frameLookup st ∖ {[frame]}) <= size (frameLookup st))%nat)
      by (apply subseteq_size, subseteq_difference_l; done).
    lia.
  - pose proof (proj1 (stop_lookup result sched st)) as H.
    apply subseteq_size in H. simpl. lia.
Qed.

Lemma session_snoc isHot events ev :
  session isHot (events ++ [ev]) = happen ev (session isHot events).
Proof. unfold session. by rewrite fold_left_app. Qed.

Lemma session_hot isHot events : hot (session isHot events) = isHot.
Proof.
  induction events as [|ev events IH] using rev_ind; [done|].
  by rewrite session_snoc, happen_hot.
Qed.

(** X1.  Whatever the renderer, the export tasks and the server do, and
    in whatever order, there are never more than [EXPORT_FRAME_LIMIT] + 1
    = 257 frames in flight. *)
Theorem session_in_flight_bounded isHot events :
  (size (frameLookup (session isHot events)) <= 257)%nat.
Proof.
  induction events as [|ev events IH] using rev_ind.
  - assert (Hz : size (frameLookup (session isHot [])) = 0%nat)
      by apply size_empty.
    rewrite Hz. lia.
  - rewrite session_snoc. pose proof (happen_size ev (session isHot events)).
    unfold EXPORT_FRAME_LIMIT in *. lia.
Qed.

(** X2.  Without [import.meta.hot] the exporter stays idle throughout a
    session: no frame is ever in flight, every [handleFrame] returns at
    once having done nothing, and [stop] never waits. *)
Theorem session_cold_is_idle events :
  frameLookup (session false events) = ∅
  /\ (forall frame signal sched,
        handleFrame frame signal sched (session false events)
        = (Inactive, session false events))
  /\ (forall result sched,
        fst (stop result sched (session false events)) = Returned 0).
Proof.
  assert (Hempty : frameLookup (session false events) = ∅).
  { induction events as [|ev events IH] using rev_ind; [done|].
    rewrite session_snoc. pose proof (session_hot false events) as Hhot.
    destruct ev; simpl.
    - exact IH.
    - done.
    - unfold handleFrame. rewrite IH, Hhot.
      destruct (decide (frame ∈ (∅ : gset Z))) as [Hin|_]; [|exact IH].
      by apply not_elem_of_empty in Hin.
    - pose proof (proj1 (exportTask_lookup blob reader frame signal i
                           (session false events))) as Hsub.
      rewrite IH in Hsub. apply leibniz_equiv.
      by apply equiv_empty.
    - unfold onAck. by rewrite Hhot.
    - pose proof (proj1 (stop_lookup result sched (session false events)))
        as Hsub.
      rewrite IH in Hsub. apply leibniz_equiv.
      by apply equiv_empty. }
  split; [exact Hempty|]. split.
  - intros frame signal sched. apply handleFrame_inactive.
    + apply session_hot.
    + rewrite Hempty. apply not_elem_of_empty.
  - intros result sched. unfold stop. destruct (isSuccess result); [|done].
    destruct sched; simpl; by rewrite Hempty.
Qed.

Lemma handleFrame_room frame signal sched st :
  hot st = true -> frame ∉ frameLookup st ->
  (size (frameLookup st) <= EXPORT_FRAME_LIMIT)%nat ->
  handleFrame frame signal sched st
  = (Accepted 0,
     emit (ToBlob frame (fileType st) (quality st))
          (withLookup ({[frame]} ∪ frameLookup st) st)).
Proof.
  intros Hhot Hfresh Hroom. rewrite handleFrame_fresh by done.
  assert (Hw : waited signal 0 0 sched st) by (intros j Hj; lia).
  assert (Hr : (inflight 0 sched st <= EXPORT_FRAME_LIMIT)%nat)
    by (unfold inflight, afterSleeps; by rewrite take_0).
  rewrite (awaitRoom_room signal 0 0 sched st ltac:(lia) Hw Hr).
  unfold afterSleeps. by rewrite take_0.
Qed.

(** X3.  When the export task fails -- [toBlob] hands over [null], or the
    reader reports an error -- the frame is taken out of the in-flight
    set, one error is logged and nothing is sent; the same frame can then
    be handed in again without being rejected as a duplicate. *)
Theorem export_failure_frees_frame blob reader frame signal i st :
  blob = None
  \/ (exists b, blob = Some b /\ signal (S i) = false /\ reader b = None) ->
  let st' := exportTask blob reader frame signal i st in
  (frame ∉ frameLookup st')
  /\ (exists e, last (effects st') = Some (LogError e))
  /\ (forall m, In (Send m) (effects st') -> In (Send m) (effects st))
  /\ (forall signal' sched',
        fst (handleFrame frame signal' sched' st') <> Rejected).
Proof.
  intros Hfail st'.
  assert (Hshape :
    (st' = exportFailed frame BlobIsNull st)
    \/ (exists b, st' = exportFailed frame ReaderFailed
                          (emit (ReadAsDataURL frame b) st))).
  { destruct Hfail as [->|(b & -> & Hsig & Hreader)]; [by left|].
    right. exists b. unfold st', exportTask. by rewrite Hsig, Hreader. }
  assert (Hfresh : frame ∉ frameLookup st').
  { destruct Hshape as [->|(b & ->)]; unfold exportFailed; simpl;
      apply not_elem_of_difference; right; by apply elem_of_singleton. }
  split; [exact Hfresh|]. split; [|split].
  - destruct Hshape as [->|(b & ->)]; unfold exportFailed; simpl.
    + exists BlobIsNull. by rewrite last_snoc.
    + exists ReaderFailed. by rewrite last_snoc.
  - intros m. destruct Hshape as [->|(b & ->)]; unfold exportFailed; simpl;
      rewrite !in_app_iff; simpl; intros H.
    + destruct H as [H|[H|[]]]; [done|discriminate H].
    + destruct H as [[H|[H|[]]]|[H|[]]]; [done|discriminate H|discriminate H].
  - intros signal' sched'. unfold handleFrame.
    destruct (decide (frame ∈ frameLookup st')); [done|].
    destruct (hot st'); [|done].
    by destruct (awaitRoom signal' 0 sched' st') as [[h|h|] s].
Qed.

Lemma export_failure_frees_frame_witness :
  let st := snd (handleFrame 7 (fun _ => false) [] (create true)) in
  let st' := exportTask None (fun _ => None) 7 (fun _ => false) 0 st in
  (7 ∈ frameLookup st)
  /\ (7 ∉ frameLookup st')
  /\ fst (handleFrame 7 (fun _ => false) [] st') = Accepted 0.
Proof.
  intros st st'.
  destruct (export_failure_frees_frame None (fun _ => None) 7
              (fun _ => false) 0 st (or_introl eq_refl))
    as (Hfresh & _ & _ & _).
  split; [|split; [exact Hfresh|]].
  - vm_compute. reflexivity.
  - by vm_compute.
Defined.

(** X4.  An acknowledgment takes exactly its frame out of flight: for a
    frame that is not in flight it changes nothing, and after a frame has
    been accepted while there was room, its acknowledgment leaves the
    in-flight set as it was before the frame was handed in. *)
Theorem ack_round_trip frame signal sched st :
  (frame ∉ frameLookup st -> frameLookup (onAck frame st) = frameLookup st)
  /\ (hot st = true -> frame ∉ frameLookup st ->
      (size (frameLookup st) <= EXPORT_FRAME_LIMIT)%nat ->
      frame ∈ frameLookup (snd (handleFrame frame signal sched st))
      /\ frameLookup (onAck frame (snd (handleFrame frame signal sched st)))
         = frameLookup st).
Proof.
  split.
  - intros Hfresh. unfold onAck. destruct (hot st); [|done]. simpl.
    apply difference_disjoint_L. by apply disjoint_singleton_r.
  - intros Hhot Hfresh Hroom. rewrite handleFrame_room by done. simpl.
    split; [apply elem_of_union_l; by apply elem_of_singleton|].
    unfold onAck. simpl. rewrite Hhot. simpl.
    rewrite difference_union_distr_l_L, difference_diag_L, union_empty_l_L.
    apply difference_disjoint_L. by apply disjoint_singleton_r.
Qed.

Lemma ack_round_trip_witness :
  hot (inFlight 3 true) = true
  /\ ((9 : Z) ∉ frameLookup (inFlight 3 true))
  /\ frameLookup (onAck 9 (snd (handleFrame 9 (fun _ => false) []
                                   (inFlight 3 true))))
     = frameLookup (inFlight 3 true).
Proof.
  assert (Hhot : hot (inFlight 3 true) = true) by reflexivity.
  assert (Hfresh : (9 : Z) ∉ frameLookup (inFlight 3 true))
    by (vm_compute; intros H; discriminate H).
  split; [exact Hhot|]. split; [exact Hfresh|].
  refine (proj2 (proj2 (ack_round_trip 9 (fun _ => false) []
                          (inFlight 3 true)) Hhot Hfresh _)).
  vm_compute. lia.
Defined.

Lemma afterSleeps_keeps frame k sched st :
  frame ∈ frameLookup st ->
  Forall (fun acks => frame ∉ acks) sched ->
  frame ∈ frameLookup (afterSleeps k sched st).
Proof.
  revert sched st; induction k as [|k IH]; intros sched st Hin Hno.
  - unfold afterSleeps. by rewrite take_0.
  - destruct sched as [|acks sched]; [done|]. rewrite afterSleeps_S.
    apply Forall_cons in Hno as [Hacks Hno]. apply IH; [|done].
    unfold sleep. clear IH Hno.
    assert (H : forall s, frame ∈ frameLookup s ->
                frame ∈ frameLookup (onAcks acks s)).
    { induction acks as [|f acks IHa]; intros s Hs; [done|]. simpl.
      apply not_elem_of_cons in Hacks as [Hne Hacks]. apply IHa; [done|].
      unfold onAck. destruct (hot s); simpl; [|done].
      apply elem_of_difference. split; [done|].
      rewrite elem_of_singleton. congruence. }
    by apply H.
Qed.

(** X5.  [stop] with [Success] does not return while a frame stays
    unacknowledged: if a frame is in flight and no acknowledgment for it
    arrives, the call is still waiting however long the schedule.  With
    any other result the same exporter is emptied at once. *)
Theorem stop_waits_for_every_frame frame sched st :
  frame ∈ frameLookup st ->
  Forall (fun acks => frame ∉ acks) sched ->
  fst (stop Success sched st) = Draining
  /\ frame ∈ frameLookup (snd (stop Success sched st))
  /\ (forall result, result <> Success ->
        stop result sched st
        = (Returned 0, withLookup ∅ (emit (ConsoleLog result) st))).
Proof.
  intros Hin Hno.
  assert (Hp : polled (S (length sched)) sched (emit (ConsoleLog Success) st)).
  { intros j _. unfold inflight.
    assert (Hj : frame ∈ frameLookup
                   (afterSleeps j sched (emit (ConsoleLog Success) st)))
      by (by apply afterSleeps_keeps).
    destruct (size (frameLookup (afterSleeps j sched
                                   (emit (ConsoleLog Success) st)))) eqn:Hsz;
      [|lia].
    apply size_empty_inv in Hsz. apply Hsz in Hj.
    by apply not_elem_of_empty in Hj. }
  split; [|split].
  - unfold stop. simpl. by rewrite drain_draining.
  - unfold stop. simpl. rewrite drain_draining by done. simpl.
    by apply afterSleeps_keeps.
  - intros result Hne. unfold stop. by destruct result.
Qed.

Lemma stop_waits_for_every_frame_witness :
  let st := snd (handleFrame 7 (fun _ => true) [] (inFlight 3 true)) in
  let leaked := exportTask (Some "png") (fun _ => Some "data:") 7
                           (fun _ => true) 0 st in
  (7 ∈ frameLookup leaked)
  /\ fst (stop Success [[0; 1]; [2]; []; []] leaked) = Draining
  /\ fst (stop ImageExporter.Aborted [] leaked) = Returned 0.
Proof.
  intros st leaked.
  assert (Hin : 7 ∈ frameLookup leaked) by (vm_compute; reflexivity).
  assert (Hno : Forall (fun acks => 7 ∉ acks) [[0; 1]; [2]; []; []]).
  { repeat constructor; intros H; vm_compute in H;
      repeat (apply list_elem_of_In in H; destruct H as [H|H];
              [discriminate H|apply list_elem_of_In in H]);
      by apply not_elem_of_nil in H. }
  destruct (stop_waits_for_every_frame 7 [[0; 1]; [2]; []; []] leaked Hin Hno)
    as (Hd & _ & _).
  split; [exact Hin|]. split; [exact Hd|]. reflexivity.
Defined.

(** X6.  A frame that is accepted while there is room and whose export is
    not cancelled produces, in this order, one [toBlob] with the
    configured file type and quality, one [readAsDataURL], and one message
    carrying the frame number, its data, the configured file type and the
    configured project name; nothing is logged. *)
Theorem export_uses_settings settings frame signal sched reader b data st :
  let st1 := configure settings st in
  hot st = true -> frame ∉ frameLookup st ->
  (size (frameLookup st) <= EXPORT_FRAME_LIMIT)%nat ->
  reader b = Some data -> signal 1%nat = false -> signal 2%nat = false ->
  effects (exportTask (Some b) reader frame signal 0
             (snd (handleFrame frame signal sched st1)))
  = effects st
      ++ [ToBlob frame (settings_fileType settings) (settings_quality settings);
          ReadAsDataURL frame b;
          Send {| msg_frame := frame; msg_isStill := false; msg_data := data;
                  msg_mimeType := settings_fileType settings;
                  msg_project := settings_name settings |}].
Proof.
  intros st1 Hhot Hfresh Hroom Hreader H1 H2.
  rewrite (handleFrame_room frame signal sched st1) by done.
  unfold exportTask. simpl. rewrite H1, Hreader, H2. simpl.
  by rewrite <- !app_assoc.
Qed.

Lemma export_uses_settings_witness :
  let settings := {| settings_name := "project"; settings_quality := 1 # 2;
                     settings_fileType := "image/jpeg" |} in
  hot (create true) = true
  /\ effects (exportTask (Some "jpg") (fun _ => Some "data:image/jpeg") 3
                (fun _ => false) 0
                (snd (handleFrame 3 (fun _ => false) []
                        (configure settings (create true)))))
     = [ToBlob 3 "image/jpeg" (1 # 2); ReadAsDataURL 3 "jpg";
        Send {| msg_frame := 3; msg_isStill := false;
                msg_data := "data:image/jpeg"; msg_mimeType := "image/jpeg";
                msg_project := "project" |}].
Proof.
  intros settings. split; [reflexivity|].
  refine (export_uses_settings settings 3 (fun _ => false) []
            (fun _ => Some "data:image/jpeg") "jpg" "data:image/jpeg"
            (create true) eq_refl _ _ eq_refl eq_refl eq_refl).
  - apply not_elem_of_empty.
  - vm_compute. lia.
Defined.

End ExporterSessions.

(* ===================================================================== *)
(** * Further properties of the text wrapping *)
(* ===================================================================== *)

Section TxtLeafWrapping.

Import TxtLeaf.

Lemma lines_step maxWidth s textNode :
  lines s <= lines (wrapStep maxWidth s textNode) <= lines s + 1.
Proof.
  unfold wrapStep.
  destruct (gt (wx s + wwidth s + measure_width textNode) maxWidth);
    destruct (isSpace (content textNode)); simpl; lia.
Qed.

Lemma lines_loop maxWidth textNodes s :
  lines s <= lines (fold_left (wrapStep maxWidth) textNodes s)
  <= lines s + Z.of_nat (length textNodes).
Proof.
  revert s; induction textNodes as [|textNode textNodes IH]; intros s.
  - simpl. lia.
  - simpl fold_left. specialize (IH (wrapStep maxWidth s textNode)).
    pose proof (lines_step maxWidth s textNode). simpl length. lia.
Qed.

(** X7.  [desiredLines] reports at least one line, also for an empty
    text, and at most one more line than there are text nodes. *)
Theorem desiredLines_bounds textNodes maxWidth :
  1 <= desiredLines textNodes maxWidth <= 1 + Z.of_nat (length textNodes)
  /\ desiredLines [] maxWidth = 1.
Proof.
  split; [|reflexivity]. unfold desiredLines.
  pose proof (lines_loop maxWidth textNodes {| wx := 0; wwidth := 0; lines := 1 |})
    as H.
  simpl in H. lia.
Qed.

(** X9.  The measure function never reports more than it is offered: with
    an exact width or height it reports that width or height, with an
    at-most width or height it stays within it; with nothing imposed it
    reports the text on one line, the sum of its widths wide and one line
    high. *)
Theorem measureFunc_within textNodes lineHeight aw wm ah hm :
  (wm = Exactly ->
     fst (measureFunc textNodes lineHeight aw wm ah hm) = aw)
  /\ (wm = AtMost ->
     (fst (measureFunc textNodes lineHeight aw wm ah hm) <= aw)%Q)
  /\ (hm = Exactly ->
     snd (measureFunc textNodes lineHeight aw wm ah hm) = ah)
  /\ (hm = AtMost ->
     (snd (measureFunc textNodes lineHeight aw wm ah hm) <= ah)%Q)
  /\ (wm = Undefined -> hm = Undefined ->
     measureFunc textNodes lineHeight aw wm ah hm
     = (totalWidth textNodes, (lineHeight * inject_Z 1)%Q)).
Proof.
  unfold measureFunc. repeat split.
  - by intros ->.
  - intros ->. destruct (Qle_bool (totalWidth textNodes) aw) eqn:Hle; simpl.
    + by apply Qle_bool_iff.
    + apply Qle_refl.
  - intros ->. by destruct wm; [| |destruct (Qle_bool _ _)].
  - intros ->.
    assert (Hmin : forall a b, (Qmin a b <= a)%Q).
    { intros a b. unfold Qmin. destruct (Qle_bool a b) eqn:Hle.
      - apply Qle_refl.
      - destruct (Qlt_le_dec a b) as [Hlt|Hge]; [|done].
        apply Qlt_le_weak, Qle_bool_iff in Hlt. congruence. }
    destruct wm; [| |destruct (Qle_bool _ _)]; simpl; apply Hmin.
  - by intros -> ->.
Qed.

Lemma measureFunc_within_witness :
  (fst (measureFunc sampleText 24 30 AtMost 40 AtMost) <= 30)%Q
  /\ (snd (measureFunc sampleText 24 30 AtMost 40 AtMost) <= 40)%Q
  /\ (snd (measureFunc sampleText 24 30 AtMost 40 AtMost) == 40)%Q
  /\ (snd (measureFunc sampleText 24 30 Exactly 40 Undefined) == 72)%Q.
Proof.
  pose proof (measureFunc_within sampleText 24 30 AtMost 40 AtMost)
    as (_ & Hw & _ & Hh & _).
  split; [exact (Hw eq_refl)|]. split; [exact (Hh eq_refl)|].
  split; reflexivity.
Defined.










End TxtLeafWrapping.

(* ===================================================================== *)
(** * Further properties of the layout *)
(* ===================================================================== *)

Section LayoutPlacement.

Import Layout.

Implicit Types (n : t) (ops : list Op) (script : Script).

(** X13.  The position of a layout root reads back what was written to
    it; the position of a node laid out by its parent is the one the
    layout computes, whatever is written to it. *)
Theorem position_write_read E v n :
  (isLayoutRoot (chain n) = true -> position E (setPosition v n) = v)
  /\ (isLayoutRoot (chain n) = false ->
      position E (setPosition v n) = position E n
      /\ position E n = computedPosition E n).
Proof.
  split; intros Hroot.
  - unfold position, getX, getY.
    change (isLayoutRoot (chain (setPosition v n)))
      with (isLayoutRoot (chain n)).
    rewrite Hroot. by destruct v.
  - unfold position, getX, getY.
    change (isLayoutRoot (chain (setPosition v n)))
      with (isLayoutRoot (chain n)).
    rewrite Hroot. split; [done|]. by destruct (computedPosition E n).
Qed.

Lemma position_write_read_witness :
  let row := withLayout (Some true) initialProps in
  let root := alone initialProps in
  let child := {| self := initialProps; ancestors := [row; view2D] |} in
  isLayoutRoot (chain root) = true
  /\ isLayoutRoot (chain child) = false
  /\ position sampleSolver (setPosition (Vector2.make 10 20) root)
     = Vector2.make 10 20
  /\ position sampleSolver (setPosition (Vector2.make 10 20) child)
     = position sampleSolver child.
Proof.
  intros row root child.
  assert (Hroot : isLayoutRoot (chain root) = true) by reflexivity.
  assert (Hchild : isLayoutRoot (chain child) = false) by reflexivity.
  split; [exact Hroot|]. split; [exact Hchild|]. split.
  - exact (proj1 (position_write_read sampleSolver (Vector2.make 10 20) root)
             Hroot).
  - exact (proj1 (proj2 (position_write_read sampleSolver
                           (Vector2.make 10 20) child) Hchild)).
Defined.

End LayoutPlacement.

Section LayoutModes.

Import Layout.

Implicit Types (n : t) (ops : list Op) (script : Script).

(** X17.  The layout mode of a node is the mode set on the nearest node
    of its chain that has one, and off when none has; a node takes part
    in its parent's layout -- is not a layout root -- exactly when the
    mode is on for the node and on for its parent. *)
Theorem layout_mode_inherited (nodes : list Props) :
  layoutEnabled nodes = default false (head (omap layout nodes))
  /\ (isLayoutRoot nodes = false
      <-> layoutEnabled nodes = true /\ layoutEnabled (tail nodes) = true).
Proof.
  split.
  - induction nodes as [|p parents IH]; [done|]. simpl.
    by destruct (layout p).
  - unfold isLayoutRoot.
    destruct (layoutEnabled nodes), (layoutEnabled (tail nodes)); simpl;
      split; try done; intros [? ?]; done.
Qed.

Lemma applyFlex_flexApplied n : applyFlex (flexApplied n) = applyFlex n.
Proof.
  unfold applyFlex. simpl.
  change (isLayoutRoot (chain (flexApplied n))) with (isLayoutRoot (chain n)).
  f_equal.
  - by destruct (justifyContent (flex (self n))).
  - by destruct (alignContent (flex (self n))).
  - by destruct (alignItems (flex (self n))).
  - by destruct (alignSelf (flex (self n))).
Qed.

Lemma layout_mode_inherited_witness :
  let nodes := [initialProps; withLayout (Some true) initialProps; view2D] in
  layoutEnabled nodes = true /\ layoutEnabled (tail nodes) = true
  /\ isLayoutRoot nodes = false
  /\ isLayoutRoot (tail nodes) = true.
Proof.
  intros nodes.
  assert (H : layoutEnabled nodes = true /\ layoutEnabled (tail nodes) = true)
    by (split; reflexivity).
  split; [exact (proj1 H)|]. split; [exact (proj2 H)|].
  split; [exact (proj2 (proj2 (layout_mode_inherited nodes)) H)|reflexivity].
Defined.

(** X18.  Running [applyFlex] again changes nothing.  But a value that no
    [case] of a [switch] handles leaves Yoga as it was: once [alignSelf]
    has been applied with one of the handled values, setting it back to
    ['auto'], its initial value, leaves Yoga with the handled value, and
    likewise for [alignContent] and ['normal']. *)
Theorem applyFlex_keeps_unhandled n :
  applyFlex (flexApplied n) = applyFlex n
  /\ (forall v a, alignOfItems v = Some a ->
        yAlignSelf (applyFlex (setAlignSelf v n)) = a
        /\ yAlignSelf (applyFlex (setAlignSelf ItemsAuto
                                    (flexApplied (setAlignSelf v n)))) = a)
  /\ yAlignContent
       (applyFlex (setAlignContent ContentNormal
                     (flexApplied (setAlignContent ContentStretch n))))
     = ALIGN_STRETCH.
Proof.
  split; [apply applyFlex_flexApplied|]. split; [|done].
  intros v a Hv. destruct v; simpl in Hv; try discriminate Hv;
    injection Hv as <-; done.
Qed.

Lemma applyFlex_keeps_unhandled_witness :
  let n := alone initialProps in
  alignOfItems ItemsCenter = Some ALIGN_CENTER
  /\ yAlignSelf (applyFlex n) = ALIGN_AUTO
  /\ yAlignSelf (applyFlex (setAlignSelf ItemsAuto
                              (flexApplied (setAlignSelf ItemsCenter n))))
     = ALIGN_CENTER.
Proof.
  intros n.
  assert (H : alignOfItems ItemsCenter = Some ALIGN_CENTER) by reflexivity.
  split; [exact H|]. split; [reflexivity|].
  exact (proj2 (proj1 (proj2 (applyFlex_keeps_unhandled n))
                  ItemsCenter ALIGN_CENTER H)).
Defined.

End LayoutModes.

Section LayoutPasses.

Import Layout.

Variable overridesCached : bool.

(** X19.  A font update applies the font on the node and on each of its
    ancestors up to the first [View2D], outermost first, each at most
    once, and on all of them when their cells are dirty; it detaches only
    layout roots whose [appendedToView] was dirty and never makes Yoga
    calculate a layout.  Asked again, it does nothing. *)
Theorem requestFontUpdate_reaches_ancestors below nodes st :
  consistent (rev below ++ nodes) st ->
  exists v st',
    requestFontUpdate overridesCached below nodes st = Some (v, st')
    /\ sublist (List.filter isApplyFont (since st st'))
               (map ApplyFont (rev (seq (length below) (fontReach nodes))))
    /\ ((forall k, (length below <= k)%nat ->
           cached OfRequestFontUpdate k st = None
           /\ cached OfApplyFont k st = None) ->
        List.filter isApplyFont (since st st')
        = map ApplyFont (rev (seq (length below) (fontReach nodes))))
    /\ (forall k, In (Detach k) (since st st') ->
          exists j q, k = (length below + j)%nat /\ nodes !! j = Some q
                      /\ isView2D q = false
                      /\ isLayoutRoot (drop j nodes) = true
                      /\ cached OfAppendedToView k st = None)
    /\ List.filter isCalculateLayout (since st st') = []
    /\ requestFontUpdate overridesCached below nodes st' = Some (v, st').
Proof.
  intros Hcons.
  destruct (requestFontUpdate_spec overridesCached _ nodes below st eq_refl
              Hcons)
    as (v & st' & new & Hf & Ht & Hsub & Hall & Hdet & Hcalc & _ & _).
  exists v, st'. rewrite (since_app _ _ _ Ht).
  split; [exact Hf|]. split; [exact Hsub|]. split; [exact Hall|].
  split; [exact Hdet|]. split; [exact Hcalc|].
  exact (requestFontUpdate_again overridesCached _ _ _ _ _ Hf).
Qed.


End LayoutPasses.

Section LayoutPassesAtWork.

Import Layout.

Lemma requestFontUpdate_reaches_ancestors_witness :
  let nodes := [initialProps; withLayout (Some true) initialProps; view2D] in
  consistent nodes fresh
  /\ exists v st',
       requestFontUpdate false [] nodes fresh = Some (v, st')
       /\ trace st' = [Detach 1; ApplyFont 2; ApplyFont 1; ApplyFont 0]
       /\ requestFontUpdate false [] nodes st' = Some (v, st').
Proof.
  intros nodes.
  assert (Hcons : consistent (rev [] ++ nodes) fresh) by apply consistent_fresh.
  destruct (requestFontUpdate_reaches_ancestors false [] nodes fresh Hcons)
    as (v & st' & Hreq & _ & Hall & _ & _ & Hagain).
  split; [exact Hcons|]. exists v, st'. split; [exact Hreq|].
  split; [|exact Hagain].
  assert (Hrun : exists s, requestFontUpdate false [] nodes fresh = Some (Void, s)
                   /\ trace s = [Detach 1; ApplyFont 2; ApplyFont 1; ApplyFont 0]).
  { eexists. split; reflexivity. }
  destruct Hrun as (s & Hs & Htrace).
  rewrite Hreq in Hs. by injection Hs as -> ->.
Defined.



End LayoutPassesAtWork.

Section LayoutTweens.

Import Layout.

Implicit Types (n : t) (ops : list Op) (script : Script).

Variable E : Solver.
Variable timingFunction : Q -> Q.

Lemma tweenWidth_literal_script value frames f n :
  isNumber (fst (desiredSize (self n))) = true ->
  isNumberValue value = true ->
  tweenWidth E timingFunction value frames f n
  = around
      [SetWidth (Value (Pixels (asNumber (fst (desiredSize (self n))))))]
      (tween frames (fun p =>
         [SetWidth (Value (f (Pixels (asNumber (fst (desiredSize (self n)))))
                             (Pixels (asNumber (unwrap value)))
                             (timingFunction p)))]))
      [SetWidth value].
Proof.
  intros Hn Hv. unfold tweenWidth. cbv zeta. by rewrite Hn, Hv.
Qed.

Lemma tweenHeight_literal_script value frames f n :
  isNumber (snd (desiredSize (self n))) = true ->
  isNumberValue value = true ->
  tweenHeight E timingFunction value frames f n
  = around
      [SetHeight (Value (Pixels (asNumber (snd (desiredSize (self n))))))]
      (tween frames (fun p =>
         [SetHeight (Value (f (Pixels (asNumber (snd (desiredSize (self n)))))
                              (Pixels (asNumber (unwrap value)))
                              (timingFunction p)))]))
      [SetHeight value].
Proof.
  intros Hn Hv. unfold tweenHeight. cbv zeta. by rewrite Hn, Hv.
Qed.

(** X20.  A tween of the width between two literal numbers never touches
    the size lock and never asks the solver: it interpolates between the
    number the node declares and the number it is given, the counter is
    the same at every suspension point, and the node ends as a plain write
    of the target would leave it.  The same holds for the height. *)
Theorem literal_tween_never_locks (E' : Solver) value frames f n :
  isNumberValue value = true ->
  (isNumber (fst (desiredSize (self n))) = true ->
   let from := asNumber (fst (desiredSize (self n))) in
   let script := tweenWidth E timingFunction value frames f n in
   locks (concat script) = 0%nat /\ releases (concat script) = 0%nat
   /\ script = tweenWidth E' timingFunction value frames f n
   /\ (forall k p, frames !! k = Some p ->
         let s := run (concat (take (S k) script)) n in
         sizeLockCounter (self s) = sizeLockCounter (self n)
         /\ width (self s)
            = Value (f (Pixels from) (Pixels (asNumber (unwrap value)))
                       (timingFunction p)))
   /\ run (concat script) n = setWidth value n)
  /\ (isNumber (snd (desiredSize (self n))) = true ->
   let from := asNumber (snd (desiredSize (self n))) in
   let script := tweenHeight E timingFunction value frames f n in
   locks (concat script) = 0%nat /\ releases (concat script) = 0%nat
   /\ script = tweenHeight E' timingFunction value frames f n
   /\ (forall k p, frames !! k = Some p ->
         let s := run (concat (take (S k) script)) n in
         sizeLockCounter (self s) = sizeLockCounter (self n)
         /\ height (self s)
            = Value (f (Pixels from) (Pixels (asNumber (unwrap value)))
                       (timingFunction p)))
   /\ run (concat script) n = setHeight value n).
Proof.
  intros Hv. split; intros Hn from script.
  - unfold script. rewrite (tweenWidth_literal_script _ _ _ _ Hn Hv).
    fold from.
    set (g := fun p : Q =>
                [SetWidth (Value (f (Pixels from) (Pixels (asNumber (unwrap value)))
                                    (timingFunction p)))]).
    assert (Hg : forall p, Forall isSetWidth (g p))
      by (intros p; repeat constructor; by eexists).
    assert (Hq : forall p, locks (g p) = 0%nat /\ releases (g p) = 0%nat)
      by done.
    destruct (frames_quiet g frames Hq) as [Hl Hr].
    split; [|split; [|split; [|split]]].
    + by rewrite concat_around_tween, !locks_app, Hl.
    + by rewrite concat_around_tween, !releases_app, Hr.
    + unfold tweenWidth. cbv zeta. by rewrite Hn, Hv.
    + intros k p Hk. cbv zeta.
      rewrite (concat_take_around_tween _ _ _ _ _ _ Hk). split.
      * rewrite counter_run, !delta_app.
        destruct (frames_quiet g (take k frames) Hq) as [Hl' Hr'].
        unfold delta at 2. rewrite Hl', Hr'. unfold delta, locks, releases.
        simpl. lia.
      * by rewrite app_assoc, run_app.
    + rewrite concat_around_tween, app_assoc, app_assoc, run_app.
      change (run [SetWidth value] ?m) with (setWidth value m).
      rewrite setWidth_absorbs; [done|].
      apply Forall_app. split; [|apply Hg].
      apply Forall_app. split; [|by apply frames_Forall].
      repeat constructor; by eexists.
  - unfold script. rewrite (tweenHeight_literal_script _ _ _ _ Hn Hv).
    fold from.
    set (g := fun p : Q =>
                [SetHeight (Value (f (Pixels from) (Pixels (asNumber (unwrap value)))
                                     (timingFunction p)))]).
    assert (Hg : forall p, Forall isSetHeight (g p))
      by (intros p; repeat constructor; by eexists).
    assert (Hq : forall p, locks (g p) = 0%nat /\ releases (g p) = 0%nat)
      by done.
    destruct (frames_quiet g frames Hq) as [Hl Hr].
    split; [|split; [|split; [|split]]].
    + by rewrite concat_around_tween, !locks_app, Hl.
    + by rewrite concat_around_tween, !releases_app, Hr.
    + unfold tweenHeight. cbv zeta. by rewrite Hn, Hv.
    + intros k p Hk. cbv zeta.
      rewrite (concat_take_around_tween _ _ _ _ _ _ Hk). split.
      * rewrite counter_run, !delta_app.
        destruct (frames_quiet g (take k frames) Hq) as [Hl' Hr'].
        unfold delta at 2. rewrite Hl', Hr'. unfold delta, locks, releases.
        simpl. lia.
      * by rewrite app_assoc, run_app.
    + rewrite concat_around_tween, app_assoc, app_assoc, run_app.
      change (run [SetHeight value] ?m) with (setHeight value m).
      rewrite setHeight_absorbs; [done|].
      apply Forall_app. split; [|apply Hg].
      apply Forall_app. split; [|by apply frames_Forall].
      repeat constructor; by eexists.
Qed.

End LayoutTweens.

Lemma literal_tween_never_locks_witness :
  let n := Layout.setWidth (Layout.Value (Layout.Pixels 100))
             (Layout.alone Layout.initialProps) in
  let value := Layout.Value (Layout.Pixels 300) in
  let script := Layout.tweenWidth Layout.sampleSolver Layout.linearTiming value
                  [0; 1 # 2]%Q Layout.linearLerp n in
  Layout.isNumberValue value = true
  /\ Layout.isNumber (fst (Layout.desiredSize (Layout.self n))) = true
  /\ Layout.locks (concat script) = 0%nat
  /\ Layout.run (concat script) n = Layout.setWidth value n
  /\ (Vector2.x (Layout.computedSize Layout.sampleSolver
                   (Layout.run (concat (take 2 script)) n)) == 200)%Q.
Proof.
  intros n value script.
  assert (Hv : Layout.isNumberValue value = true) by reflexivity.
  assert (Hn : Layout.isNumber (fst (Layout.desiredSize (Layout.self n))) = true)
    by reflexivity.
  destruct (proj1 (literal_tween_never_locks Layout.sampleSolver
                     Layout.linearTiming Layout.sampleSolver value
                     [0; 1 # 2]%Q Layout.linearLerp n Hv) Hn)
    as (Hl & _ & _ & _ & Hfinal).
  split; [exact Hv|]. split; [exact Hn|]. split; [exact Hl|].
  split; [exact Hfinal|]. reflexivity.
Defined.

Section LayoutChildren.

Import Layout.

Lemma weight_pos node : (1 <= weight node)%nat.
Proof. destruct node; simpl; lia. Qed.

Lemma list_sum_weights_app (l1 l2 : list SceneNode) :
  list_sum (map weight (l1 ++ l2))
  = (list_sum (map weight l1) + list_sum (map weight l2))%nat.
Proof. by rewrite map_app, list_sum_app. Qed.

Lemma layoutChildrenLoop_spec enabled fuel :
  forall queue result tree,
    (list_sum (map weight queue) <= fuel)%nat ->
    layoutChildrenLoop fuel enabled queue result tree
    = Some (result ++ flat_map (nearest enabled) queue,
            fold_left (fun t node => removeFromParent (nodeId node) t)
                      (flat_map (nearest enabled) queue) tree).
Proof.
  induction fuel as [|fuel IH]; intros queue result tree Hfuel.
  - destruct queue as [|child queue]; [simpl; by rewrite app_nil_r|].
    simpl in Hfuel. pose proof (weight_pos child). lia.
  - destruct queue as [|child queue]; [simpl; by rewrite app_nil_r|].
    simpl in Hfuel. destruct child as [id mode children|children].
    + simpl layoutChildrenLoop. simpl flat_map.
      simpl in Hfuel. destruct (default enabled mode).
      * rewrite IH by lia. simpl. by rewrite <- app_assoc.
      * rewrite IH by lia. done.
    + simpl layoutChildrenLoop. simpl in Hfuel.
      rewrite IH by (rewrite list_sum_weights_app; lia).
      simpl flat_map. by rewrite flat_map_app.
Qed.

Lemma without_nil (handles : list nat) : without [] handles = handles.
Proof.
  unfold without. induction handles as [|c handles IH]; simpl; [done|].
  f_equal. exact IH.
Qed.

Lemma without_cons id ids (handles : list nat) :
  without ids (List.filter (fun c => negb (c =? id)%nat) handles)
  = without (id :: ids) handles.
Proof.
  unfold without. induction handles as [|c handles IH]; simpl; [done|].
  destruct (c =? id)%nat; simpl; [exact IH|].
  destruct (existsb (Nat.eqb c) ids); simpl; [exact IH|].
  f_equal. exact IH.
Qed.

Lemma detach_lookup (nodes : list SceneNode) (tree : gmap nat (list nat)) q :
  fold_left (fun t node => removeFromParent (nodeId node) t) nodes tree !! q
  = without (map nodeId nodes) <$> tree !! q.
Proof.
  revert tree; induction nodes as [|node nodes IH]; intros tree; simpl.
  - destruct (tree !! q); simpl; [|done]. by rewrite without_nil.
  - rewrite IH. unfold removeFromParent. rewrite lookup_fmap.
    destruct (tree !! q); simpl; [|done]. by rewrite without_cons.
Qed.

Lemma without_excludes ids handles id :
  In id ids -> ¬ In id (without ids handles).
Proof.
  intros Hid Hin. unfold without in Hin. apply filter_In in Hin as [_ Hin].
  apply negb_true_iff in Hin.
  assert (Hex : existsb (Nat.eqb id) ids = true).
  { apply existsb_exists. exists id. split; [done|]. apply Nat.eqb_refl. }
  congruence.
Qed.

Lemma layoutChildren_eq fuel this enabled children tree :
  (list_sum (map weight children) <= fuel)%nat ->
  layoutChildren fuel this enabled children tree
  = Some (flat_map (nearest enabled) children,
          <[this := map nodeId (flat_map (nearest enabled) children)]>
            (fold_left (fun t node => removeFromParent (nodeId node) t)
                       (flat_map (nearest enabled) children) tree)).
Proof.
  intros Hfuel. unfold layoutChildren.
  by rewrite (layoutChildrenLoop_spec enabled fuel children [] tree Hfuel).
Qed.

(** X22.  [layoutChildren] comes to an end on every scene, given one
    step per node, and returns in document order the [Layout] nodes met
    first on the way down through nodes of other kinds, leaving out those
    whose layout is off; it does not look below a [Layout] node.
    Afterwards the node's Yoga handle has exactly their handles as
    children, in that order, whatever it had before, and every other
    handle has lost those among its children and kept the rest. *)
Theorem layoutChildren_collects fuel this enabled children tree :
  (list_sum (map weight children) <= fuel)%nat ->
  exists tree',
    layoutChildren fuel this enabled children tree
    = Some (flat_map (nearest enabled) children, tree')
    /\ tree' !! this
       = Some (map nodeId (flat_map (nearest enabled) children))
    /\ (forall q, q <> this ->
          tree' !! q
          = without (map nodeId (flat_map (nearest enabled) children))
              <$> tree !! q)
    /\ (forall q handles id, q <> this -> tree' !! q = Some handles ->
          In id (map nodeId (flat_map (nearest enabled) children)) ->
          ¬ In id handles).
Proof.
  intros Hfuel. rewrite (layoutChildren_eq _ _ _ _ _ Hfuel).
  eexists. split; [reflexivity|].
  assert (Hother : forall q, q <> this ->
            <[this := map nodeId (flat_map (nearest enabled) children)]>
              (fold_left (fun t node => removeFromParent (nodeId node) t)
                         (flat_map (nearest enabled) children) tree) !! q
            = without (map nodeId (flat_map (nearest enabled) children))
                <$> tree !! q).
  { intros q Hq. rewrite lookup_insert_ne by done. apply detach_lookup. }
  split; [apply lookup_insert_eq|]. split; [exact Hother|].
  intros q handles id Hq Hlook Hid. rewrite Hother in Hlook by done.
  destruct (tree !! q) as [old|]; simpl in Hlook; [|discriminate].
  injection Hlook as <-. by apply without_excludes.
Qed.

Lemma layoutChildren_collects_witness :
  let tree : gmap nat (list nat) := {[ 0%nat := [9; 5]%nat; 7%nat := [6; 8]%nat ]} in
  (list_sum (map weight sampleScene) <= 7)%nat
  /\ (exists tree',
        layoutChildren 7 0 true sampleScene tree
        = Some ([LayoutChild 1 None [LayoutChild 2 None []];
                 LayoutChild 5 (Some true) []; LayoutChild 6 None []], tree')
        /\ tree' !! 0%nat = Some [1; 5; 6]%nat
        /\ tree' !! 7%nat = Some [8]%nat)
  /\ layoutChildren 2 0 true sampleScene tree = None.
Proof.
  intros tree.
  assert (Hfuel : (list_sum (map weight sampleScene) <= 7)%nat)
    by (simpl; lia).
  destruct (layoutChildren_collects 7 0 true sampleScene tree Hfuel)
    as (tree' & Heq & Hthis & Hother & _).
  split; [exact Hfuel|]. split; [|reflexivity].
  exists tree'. split; [exact Heq|]. split; [exact Hthis|].
  rewrite (Hother 7%nat) by done. reflexivity.
Defined.

End LayoutChildren.
